(** * vite-plugin-wasm-pack: a shallow embedding of [src/index.ts]

    The plugin is one closure, [vitePluginWasmPack], that builds a table of
    wasm binaries ([wasmMap]) and returns the hooks Vite calls:
    [resolveId], [buildStart], [configureServer] and [buildEnd].  This file
    translates that closure and the platform functions it calls (Node's
    [path] module in its POSIX flavour, [String.prototype.replace] with a
    global regular expression, the file-system calls and the HTTP response
    object) into Rocq, and proves the properties the specification states
    about them. *)

From Stdlib Require Import NArith ZArith Ascii String.
From stdpp Require Import base option list gmap.

Local Open Scope Z_scope.

(** ** JavaScript strings

    A JavaScript string is a sequence of UTF-16 code units.  The plugin only
    compares code units, slices and concatenates, so a string is a list of
    code units. *)

Abbreviation char := N.
Abbreviation jsstring := (list N).

Definition str (s : string) : jsstring :=
  (λ a, N_of_ascii a) <$> list_ascii_of_string s.

Definition CHAR_FORWARD_SLASH : char := 47%N.
Definition CHAR_DOT : char := 46%N.
Definition CHAR_HYPHEN : char := 45%N.
Definition CHAR_UNDERSCORE : char := 95%N.

(** [s.charCodeAt(i)] for an index inside the string. *)
Definition charCodeAt (s : jsstring) (i : nat) : char := nth i s 0%N.

(** [s.slice(a, b)] for [0 <= a <= b <= s.length]. *)
Definition slice (s : jsstring) (a b : Z) : jsstring :=
  take (Z.to_nat (b - a)) (drop (Z.to_nat a) s).

(** [s.lastIndexOf(c)] for a one-character needle, [-1] when absent. *)
Fixpoint lastIndexOf_from (s : jsstring) (c : char) (i : Z) (found : Z) : Z :=
  match s with
  | [] => found
  | x :: s' => lastIndexOf_from s' c (i + 1) (if (x =? c)%N then i else found)
  end.

Definition lastIndexOf (s : jsstring) (c : char) : Z := lastIndexOf_from s c 0 (-1).

(** [s.startsWith(p)], returning what follows the prefix. *)
Fixpoint strip_prefix (p s : jsstring) : option jsstring :=
  match p, s with
  | [], _ => Some s
  | a :: p', b :: s' => if (a =? b)%N then strip_prefix p' s' else None
  | _ :: _, [] => None
  end.

(** [s.endsWith(p)]. *)
Definition endsWith (s p : jsstring) : bool :=
  bool_decide (drop (length s - length p) s = p) && (length p <=? length s)%nat.

(** ** Regular expressions

    The two regular expressions of the source, [/\-/g] and
    [/input = new URL\('(.+)'.+;/g], are sequences of literal characters,
    [.+] and one capturing [(.+)].  The matcher is the backtracking matcher of
    ECMAScript restricted to these atoms: a greedy [.+] first takes as many
    characters as it can and gives them back one at a time; [.] matches any
    code unit except a line terminator. *)

Inductive atom :=
| Lit (l : jsstring)
| DotPlus
| GroupDotPlus.

Definition regex := list atom.

Definition is_line_terminator (c : char) : bool :=
  ((c =? 10) || (c =? 13) || (c =? 8232) || (c =? 8233))%N.

(** Greedy [.+] followed by the continuation [k]; [k] receives the characters
    taken and the rest of the input. *)
Fixpoint dot_plus {A} (s : jsstring) (k : jsstring → jsstring → option A) : option A :=
  match s with
  | [] => None
  | c :: s' =>
      if is_line_terminator c then None
      else match dot_plus s' (λ g r, k (c :: g) r) with
           | Some x => Some x
           | None => k [c] s'
           end
  end.

(** Match [r] at the start of [s]; the result is capture group 1 and the input
    left after the match. *)
Fixpoint match_here (r : regex) (s : jsstring) (g1 : option jsstring)
  : option (option jsstring * jsstring) :=
  match r with
  | [] => Some (g1, s)
  | Lit l :: r' =>
      match strip_prefix l s with
      | Some s' => match_here r' s' g1
      | None => None
      end
  | DotPlus :: r' => dot_plus s (λ _ s', match_here r' s' g1)
  | GroupDotPlus :: r' => dot_plus s (λ g s', match_here r' s' (Some g))
  end.

(** [s.replace(r, f)] for a global [r] and a replacer function [f] of capture
    group 1: matches are searched left to right, each search starting where
    the previous match ended (one code unit further after an empty match). *)
Fixpoint replace_loop (fuel : nat) (r : regex) (f : option jsstring → jsstring)
    (s : jsstring) : jsstring :=
  match fuel with
  | O => s
  | S fuel' =>
      match match_here r s None with
      | Some (g, rest) =>
          if (length rest <? length s)%nat then f g ++ replace_loop fuel' r f rest
          else match s with
               | [] => f g
               | c :: s' => f g ++ c :: replace_loop fuel' r f s'
               end
      | None =>
          match s with
          | [] => []
          | c :: s' => c :: replace_loop fuel' r f s'
          end
      end
  end.

Definition replace (r : regex) (f : option jsstring → jsstring) (s : jsstring) : jsstring :=
  replace_loop (S (length s)) r f s.

(** [r.test(s)]: does [r] match somewhere in [s]? *)
Fixpoint test (r : regex) (s : jsstring) : bool :=
  match match_here r s None with
  | Some _ => true
  | None =>
      match s with
      | [] => false
      | _ :: s' => test r s'
      end
  end.

(** ** Node's [path] module (POSIX) *)

Module path.

Definition isPosixPathSeparator (c : char) : bool := (c =? CHAR_FORWARD_SLASH)%N.

(** The loop of [basename]: [n] is [i + 1], so the iteration for index [i]
    is the case [S i]; the result is the pair [(start, end)]. *)
Fixpoint basename_loop (p : jsstring) (n : nat) (end_ : Z) (matchedSlash : bool) : Z * Z :=
  match n with
  | O => (0, end_)
  | S i =>
      if (charCodeAt p i =? CHAR_FORWARD_SLASH)%N then
        if negb matchedSlash then (Z.of_nat i + 1, end_)
        else basename_loop p i end_ matchedSlash
      else if end_ =? -1 then basename_loop p i (Z.of_nat i + 1) false
      else basename_loop p i end_ matchedSlash
  end.

Definition basename (p : jsstring) : jsstring :=
  let '(start, end_) := basename_loop p (length p) (-1) true in
  if end_ =? -1 then [] else slice p start end_.

(** [dirname]: the loop runs for [i] from [length - 1] down to [1]; the
    result is [end], [-1] when no separator ends a directory part. *)
Fixpoint dirname_loop (p : jsstring) (n : nat) (matchedSlash : bool) : Z :=
  match n with
  | O => -1
  | S O => -1
  | S i =>
      if (charCodeAt p i =? CHAR_FORWARD_SLASH)%N then
        if negb matchedSlash then Z.of_nat i
        else dirname_loop p i matchedSlash
      else dirname_loop p i false
  end.

Definition dirname (p : jsstring) : jsstring :=
  if (length p =? 0)%nat then str "."
  else
    let hasRoot := (charCodeAt p 0 =? CHAR_FORWARD_SLASH)%N in
    let end_ := dirname_loop p (length p) true in
    if end_ =? -1 then (if hasRoot then str "/" else str ".")
    else if hasRoot && (end_ =? 1) then str "//"
    else slice p 0 end_.

(** The state of [normalizeString]'s loop. *)
Record nstate := NState {
  res : jsstring;
  lastSegmentLength : Z;
  lastSlash : Z;
  dots : Z
}.

Definition len (s : jsstring) : Z := Z.of_nat (length s).

(** One iteration of [normalizeString]'s loop, at index [i] with the
    character [code]. *)
Definition normalize_step (p : jsstring) (allowAboveRoot : bool) (i : Z) (code : char)
    (st : nstate) : nstate :=
  if isPosixPathSeparator code then
    if (lastSlash st =? i - 1) || (dots st =? 1) then
      NState (res st) (lastSegmentLength st) i 0
    else if dots st =? 2 then
      let above :=
        if allowAboveRoot then
          NState (res st ++ (if len (res st) >? 0 then str "/.." else str "..")) 2 i 0
        else NState (res st) (lastSegmentLength st) i 0 in
      if (len (res st) <? 2) || negb (lastSegmentLength st =? 2)
         || negb (charCodeAt (res st) (length (res st) - 1) =? CHAR_DOT)%N
         || negb (charCodeAt (res st) (length (res st) - 2) =? CHAR_DOT)%N then
        if len (res st) >? 2 then
          let lastSlashIndex := lastIndexOf (res st) CHAR_FORWARD_SLASH in
          if lastSlashIndex =? -1 then NState [] 0 i 0
          else
            let res' := slice (res st) 0 lastSlashIndex in
            NState res' (len res' - 1 - lastIndexOf res' CHAR_FORWARD_SLASH) i 0
        else if negb (len (res st) =? 0) then NState [] 0 i 0
        else above
      else above
    else
      let seg := slice p (lastSlash st + 1) i in
      NState (if len (res st) >? 0 then res st ++ str "/" ++ seg else seg)
             (i - lastSlash st - 1) i 0
  else if (code =? CHAR_DOT)%N && negb (dots st =? -1) then
    NState (res st) (lastSegmentLength st) (lastSlash st) (dots st + 1)
  else
    NState (res st) (lastSegmentLength st) (lastSlash st) (-1).

(** The loop [for (i = 0; i <= path.length; ++i)]: [rest] is what is left of
    the path from index [i], [code] the character of the previous
    iteration.  Past the end the loop stops after a separator and otherwise
    runs once more on a separator. *)
Fixpoint normalize_loop (p : jsstring) (allowAboveRoot : bool) (rest : jsstring) (i : Z)
    (code : char) (st : nstate) : jsstring :=
  match rest with
  | c :: rest' =>
      normalize_loop p allowAboveRoot rest' (i + 1) c (normalize_step p allowAboveRoot i c st)
  | [] =>
      if isPosixPathSeparator code then res st
      else res (normalize_step p allowAboveRoot i CHAR_FORWARD_SLASH st)
  end.

Definition normalizeString (p : jsstring) (allowAboveRoot : bool) : jsstring :=
  normalize_loop p allowAboveRoot p 0 0%N (NState [] 0 (-1) 0).

Definition normalize (p : jsstring) : jsstring :=
  if (length p =? 0)%nat then str "."
  else
    let isAbsolute := (charCodeAt p 0 =? CHAR_FORWARD_SLASH)%N in
    let trailingSeparator := (charCodeAt p (length p - 1) =? CHAR_FORWARD_SLASH)%N in
    let p' := normalizeString p (negb isAbsolute) in
    if (length p' =? 0)%nat then
      if isAbsolute then str "/"
      else if trailingSeparator then str "./" else str "."
    else
      let p'' := if trailingSeparator then p' ++ str "/" else p' in
      if isAbsolute then str "/" ++ p'' else p''.

(** The loop of [join]: the non-empty arguments separated by ["/"];
    [None] is the [undefined] of the source. *)
Fixpoint join_loop (args : list jsstring) (joined : option jsstring) : option jsstring :=
  match args with
  | [] => joined
  | arg :: args' =>
      if (0 <? length arg)%nat then
        join_loop args' (Some match joined with
                              | None => arg
                              | Some j => j ++ str "/" ++ arg
                              end)
      else join_loop args' joined
  end.

Definition join (args : list jsstring) : jsstring :=
  match join_loop args None with
  | None => str "."
  | Some joined => normalize joined
  end.

(** [resolve(p)] with one argument, in the working directory [cwd]
    (an absolute path). *)
Definition resolve (cwd : jsstring) (p : jsstring) : jsstring :=
  let '(resolvedPath, resolvedAbsolute) :=
    if (0 <? length p)%nat then
      if (charCodeAt p 0 =? CHAR_FORWARD_SLASH)%N then (p ++ str "/", true)
      else if (0 <? length cwd)%nat then
        (cwd ++ str "/" ++ p ++ str "/", (charCodeAt cwd 0 =? CHAR_FORWARD_SLASH)%N)
      else (p ++ str "/", false)
    else if (0 <? length cwd)%nat then
      (cwd ++ str "/", (charCodeAt cwd 0 =? CHAR_FORWARD_SLASH)%N)
    else ([], false) in
  let resolvedPath := normalizeString resolvedPath (negb resolvedAbsolute) in
  if resolvedAbsolute then str "/" ++ resolvedPath
  else if (0 <? length resolvedPath)%nat then resolvedPath else str ".".

End path.

(** ** The plugin: derived file names *)

Definition prefix : jsstring := str "@vite-plugin-wasm-pack@".
Definition pkg : jsstring := str "pkg".

(** [s.replace(/\-/g, '_')] *)
Definition hyphens_to_underscores (s : jsstring) : jsstring :=
  replace [Lit (str "-")] (λ _, str "_") s.

Definition wasmFilename (cratePath : jsstring) : jsstring :=
  hyphens_to_underscores (path.basename cratePath) ++ str "_bg.wasm".


(** ** The world outside the plugin

    The file system is keyed by absolute normalised paths; a call with a
    relative path resolves it in the working directory first.  [installed]
    is the table behind [require.resolve]: the entry point of every package
    Node can resolve.  [console] collects the lines of [console.error],
    [emitted] the files handed to the bundler with [this.emitFile]. *)

Record asset := Asset {
  fileName : jsstring;
  source : jsstring
}.

Record world := World {
  cwd : jsstring;
  files : gmap jsstring jsstring;
  dirs : gset jsstring;
  installed : gmap jsstring jsstring;
  console : list jsstring;
  emitted : list asset
}.

Inductive error :=
| ModuleNotFound (id : jsstring)
| ENOENT (p : jsstring)
| PluginError (msg : jsstring).

Inductive result (A : Type) :=
| Ok (a : A)
| Err (e : error).
Arguments Ok {A} a.
Arguments Err {A} e.

(** Hooks run in the world and either return or throw. *)
Definition M (A : Type) : Type := world → result A * world.

#[global] Instance M_ret : MRet M := λ A a w, (Ok a, w).

#[global] Instance M_bind : MBind M := λ A B k m w,
  match m w with
  | (Ok a, w') => k a w'
  | (Err e, w') => (Err e, w')
  end.

Definition throw {A} (e : error) : M A := λ w, (Err e, w).

(** [try { m } catch (error) { h }] *)
Definition try_catch {A} (m : M A) (h : M A) : M A :=
  λ w, match m w with
       | (Ok a, w') => (Ok a, w')
       | (Err _, w') => h w'
       end.

Definition when (b : bool) (m : M ()) : M () := if b then m else mret ().

(** [for (const x of l) { await f(x) }] *)
Fixpoint for_each {A} (l : list A) (f : A → M ()) : M () :=
  match l with
  | [] => mret ()
  | x :: l' => f x;; for_each l' f
  end.

Module fs.

Definition existsSync (p : jsstring) : M bool := λ w,
  let r := path.resolve (cwd w) p in
  (Ok (bool_decide (is_Some (files w !! r) ∨ r ∈ dirs w)), w).

Definition readFileSync (p : jsstring) : M jsstring := λ w,
  match files w !! path.resolve (cwd w) p with
  | Some c => (Ok c, w)
  | None => (Err (ENOENT p), w)
  end.

(** In the plugin a file is written right after it was read, so its
    directory exists. *)
Definition writeFileSync (p : jsstring) (data : jsstring) : M () := λ w,
  (Ok (), World (cwd w) (<[path.resolve (cwd w) p := data]> (files w)) (dirs w)
                (installed w) (console w) (emitted w)).

(** Where [copy] puts the entry [p] found below [src]. *)
Definition copy_target (src dst p : jsstring) : option jsstring :=
  (λ rel, dst ++ str "/" ++ rel) <$> strip_prefix (src ++ str "/") p.

(** [fs.copy(src, dst)] of fs-extra: a missing source is an error; a
    directory is copied with everything below it, over what is there. *)
Definition copy (src dst : jsstring) : M () := λ w,
  let s := path.resolve (cwd w) src in
  let d := path.resolve (cwd w) dst in
  if bool_decide (s ∈ dirs w) then
    let files' :=
      map_fold (λ p c acc, match copy_target s d p with
                           | Some q => <[q := c]> acc
                           | None => acc
                           end) (files w) (files w) in
    let dirs' :=
      set_fold (λ p acc, match copy_target s d p with
                         | Some q => {[q]} ∪ acc
                         | None => acc
                         end) ({[d]} ∪ dirs w) (dirs w) in
    (Ok (), World (cwd w) files' dirs' (installed w) (console w) (emitted w))
  else
    match files w !! s with
    | Some c =>
        (Ok (), World (cwd w) (<[d := c]> (files w)) (dirs w)
                      (installed w) (console w) (emitted w))
    | None => (Err (ENOENT src), w)
    end.


End fs.

(** [path.resolve(p)] reads the working directory of the process. *)
Definition path_resolve (p : jsstring) : M jsstring := λ w, (Ok (path.resolve (cwd w) p), w).

Definition require_resolve (id : jsstring) : M jsstring := λ w,
  match installed w !! id with
  | Some entry => (Ok entry, w)
  | None => (Err (ModuleNotFound id), w)
  end.

Definition console_error (msg : jsstring) : M () := λ w,
  (Ok (), World (cwd w) (files w) (dirs w) (installed w) (console w ++ [msg]) (emitted w)).

(** [this.error(msg)] of the plugin context never returns. *)
Definition this_error {A} (msg : jsstring) : M A := throw (PluginError msg).

Definition this_emitFile (a : asset) : M () := λ w,
  (Ok (), World (cwd w) (files w) (dirs w) (installed w) (console w) (emitted w ++ [a])).

(** Without colour support [chalk.bold] and [chalk.bold.red] return their
    argument. *)
Definition chalk (s : jsstring) : jsstring := s.

(** ** JavaScript's [Map]: entries in insertion order, [set] on a key that is
    present replaces the value where it stands. *)

Module JsMap.
Section ops.
Context {V : Type}.

Fixpoint set (m : list (jsstring * V)) (k : jsstring) (v : V) : list (jsstring * V) :=
  match m with
  | [] => [(k, v)]
  | (k', v') :: m' =>
      if decide (k' = k) then (k, v) :: m' else (k', v') :: set m' k v
  end.

Fixpoint get (m : list (jsstring * V)) (k : jsstring) : option V :=
  match m with
  | [] => None
  | (k', v') :: m' => if decide (k' = k) then Some v' else get m' k
  end.

Definition keys (m : list (jsstring * V)) : list jsstring := fst <$> m.
End ops.
End JsMap.

(** ** The plugin *)

Inductive str_or_list :=
| One (s : jsstring)
| Many (l : list jsstring).

Record CrateType := Crate {
  crate_path : jsstring;
  isNodeModule : bool
}.

(** The variables of the closure that the hooks read. *)
Record plugin := Plugin {
  cratePaths : list jsstring;
  modulePaths : list jsstring;
  wasmMap : list (jsstring * CrateType)
}.

Definition cratePaths_of (crates : str_or_list) : list jsstring :=
  match crates with
  | One s => [s]
  | Many l => l
  end.

(** [!moduleCrates] holds for [undefined] and for the empty string. *)
Definition modulePaths_of (moduleCrates : option str_or_list) : list jsstring :=
  match moduleCrates with
  | None => []
  | Some (One s) => if (length s =? 0)%nat then [] else [s]
  | Some (Many l) => l
  end.

(** [cratePaths.forEach(...)] of lines 49-55. *)
Fixpoint add_crates (l : list jsstring) (m : list (jsstring * CrateType))
  : list (jsstring * CrateType) :=
  match l with
  | [] => m
  | cratePath :: l' =>
      let wasmFile := wasmFilename cratePath in
      add_crates l' (JsMap.set m wasmFile
                       (Crate (path.join [cratePath; pkg; wasmFile]) false))
  end.

(** [modulePaths.forEach(...)] of lines 57-64. *)
Fixpoint add_modules (l : list jsstring) (m : list (jsstring * CrateType))
  : M (list (jsstring * CrateType)) :=
  match l with
  | [] => mret m
  | cratePath :: l' =>
      let wasmFile := wasmFilename cratePath in
      entry ← require_resolve cratePath;
      let wasmDirectory := path.dirname entry in
      add_modules l' (JsMap.set m wasmFile
                        (Crate (path.join [wasmDirectory; wasmFile]) true))
  end.

Definition vitePluginWasmPack (crates : str_or_list) (moduleCrates : option str_or_list)
  : M plugin :=
  let cratePaths := cratePaths_of crates in
  let modulePaths := modulePaths_of moduleCrates in
  wasmMap ← add_modules modulePaths (add_crates cratePaths []);
  mret (Plugin cratePaths modulePaths wasmMap).

(** *** [resolveId] *)

Fixpoint resolveId_loop (l : list jsstring) (id : jsstring) : option jsstring :=
  match l with
  | [] => None
  | c :: l' =>
      if decide (path.basename c = id) then Some (prefix ++ id)
      else resolveId_loop l' id
  end.

Definition resolveId (pl : plugin) (id : jsstring) : option jsstring :=
  resolveId_loop (cratePaths pl) id.

(** *** [load] *)


(** *** [buildStart] *)

Definition CHAR_DOUBLE_QUOTE : char := 34%N.

(** [/input = new URL\('(.+)'.+;/g] *)
Definition url_regex : regex :=
  [Lit (str "input = new URL('"); GroupDotPlus; Lit (str "'"); DotPlus; Lit (str ";")].

(** The replacer of lines 142-148.  [url_regex] has a group 1, so [None]
    does not reach it. *)
Definition rewrite_url (config_base config_assetsDir : jsstring) (group1 : option jsstring)
  : jsstring :=
  str "input = " ++ [CHAR_DOUBLE_QUOTE]
    ++ path.join [config_base; config_assetsDir; default [] group1]
    ++ [CHAR_DOUBLE_QUOTE].

(** The text transformation of the loader script, lines 140-148. *)
Definition transform (config_base config_assetsDir : jsstring) (code : jsstring) : jsstring :=
  replace url_regex (rewrite_url config_base config_assetsDir) code.

Definition missing_module_message (pkgPath cratePath : jsstring) : jsstring :=
  chalk (str "Error: ") ++ str "Can't find " ++ chalk pkgPath ++ str ", run "
    ++ chalk (str "npm install " ++ cratePath) ++ str " first".

Definition missing_crate_message (pkgPath cratePath : jsstring) : jsstring :=
  chalk (str "Error: ") ++ str "Can't find " ++ chalk pkgPath ++ str ", run "
    ++ chalk (str "wasm-pack build " ++ cratePath ++ str " --target web") ++ str " first".

(** [config_base] and [config_assetsDir] are the values [configResolved]
    stored; Vite calls it before [buildStart]. *)
Definition prepareBuild (config_base config_assetsDir : jsstring)
    (cratePath : jsstring) (isNodeModule : bool) : M () :=
  pkgPath ← (if isNodeModule
             then entry ← require_resolve cratePath; mret (path.dirname entry)
             else mret (path.join [cratePath; pkg]));
  let crateName := path.basename cratePath in
  found ← fs.existsSync pkgPath;
  when (negb found)
    (if isNodeModule
     then console_error (missing_module_message pkgPath cratePath)
     else console_error (missing_crate_message pkgPath cratePath));;
  when (negb isNodeModule)
    (try_catch (fs.copy pkgPath (path.join [str "node_modules"; crateName]))
               (this_error (str "copy crates failed")));;
  let jsName := hyphens_to_underscores crateName ++ str ".js" in
  let jsPath :=
    if isNodeModule then path.join [pkgPath; jsName]
    else path.join [str "./node_modules"; crateName; jsName] in
  code ← path_resolve jsPath ≫= fs.readFileSync;
  let code := transform config_base config_assetsDir code in
  fs.writeFileSync jsPath code.

Definition buildStart (config_base config_assetsDir : jsstring) (pl : plugin) : M () :=
  for_each (cratePaths pl) (λ cratePath, prepareBuild config_base config_assetsDir cratePath false);;
  for_each (modulePaths pl) (λ cratePath, prepareBuild config_base config_assetsDir cratePath true).

(** *** [configureServer]: the middleware *)

Record request := Request {
  url : option jsstring
}.

(** The response under construction: the status line once [writeHead] has
    run, the headers, and the body once a stream was piped into it. *)
Record response := Response {
  statusCode : option Z;
  headers : gmap jsstring jsstring;
  body : option jsstring
}.

Definition setHeader (name value : jsstring) (r : response) : response :=
  Response (statusCode r) (<[name := value]> (headers r)) (body r).

(** [res.writeHead(status, hdrs)] keeps the headers set before and adds
    [hdrs]. *)
Definition writeHead (status : Z) (hdrs : list (jsstring * jsstring)) (r : response)
  : response :=
  Response (Some status) (foldl (λ h kv, <[kv.1 := kv.2]> h) (headers r) hdrs) (body r).

(** [fs.createReadStream(p).pipe(res)]: the bytes of the file reach the
    response; a missing file makes the stream fail and nothing is sent. *)
Definition pipe_file (w : world) (p : jsstring) (r : response) : response :=
  match files w !! path.resolve (cwd w) p with
  | Some c => Response (statusCode r) (headers r) (Some c)
  | None => r
  end.

(** The handler of lines 164-179; the boolean tells whether [next()] was
    called. *)
Definition middleware (pl : plugin) (w : world) (req : request) (res : response)
  : response * bool :=
  match url req with
  | Some u =>
      let basename := path.basename u in
      let res := setHeader (str "Cache-Control") (str "no-cache, no-store, must-revalidate") res in
      let entry := JsMap.get (wasmMap pl) basename in
      match (if endsWith basename (str ".wasm") then entry else None) with
      | Some entry =>
          let res := writeHead 200 [(str "Content-Type", str "application/wasm")] res in
          (pipe_file w (crate_path entry) res, false)
      | None => (res, true)
      end
  | None => (res, false)
  end.

(** *** [buildEnd] *)

Definition buildEnd (pl : plugin) : M () :=
  for_each (wasmMap pl) (λ '(fileName, crate),
    source ← fs.readFileSync (crate_path crate);
    this_emitFile (Asset (str "assets/" ++ fileName) source)).

(** ** Definitions that follow the specification's words *)

Fixpoint take_while (P : char → bool) (s : jsstring) : jsstring :=
  match s with
  | [] => []
  | c :: s' => if P c then c :: take_while P s' else []
  end.

Fixpoint drop_while (P : char → bool) (s : jsstring) : jsstring :=
  match s with
  | [] => []
  | c :: s' => if P c then drop_while P s' else s
  end.

(** "The last path segment of the source identifier": what stands between
    the last separator and the end, trailing separators aside. *)
Definition last_segment (s : jsstring) : jsstring :=
  reverse (take_while (λ c, negb (path.isPosixPathSeparator c))
             (drop_while path.isPosixPathSeparator (reverse s))).

(** "Replace every hyphen with an underscore". *)
Definition hyphen_to_underscore (c : char) : char :=
  if (c =? CHAR_HYPHEN)%N then CHAR_UNDERSCORE else c.

(** ** A project for the worked examples

    The working directory is [/proj].  The crate [./my-crate] has been built
    with wasm-pack, the crate [./fresh-crate] has not; the package
    [test-npm-crate] is installed. *)

Definition LF : jsstring := [10%N].

Definition demo_loader (wasm : jsstring) : jsstring :=
  str "async function init(input) {" ++ LF
  ++ str "    if (typeof input === 'undefined') {" ++ LF
  ++ str "        input = new URL('" ++ wasm ++ str "', import.meta.url);" ++ LF
  ++ str "    }" ++ LF
  ++ str "}" ++ LF.

(** The loader once its reference has been rewritten to [ref]. *)
Definition demo_loader_rewritten (ref : jsstring) : jsstring :=
  str "async function init(input) {" ++ LF
  ++ str "    if (typeof input === 'undefined') {" ++ LF
  ++ str "        input = " ++ [CHAR_DOUBLE_QUOTE] ++ ref ++ [CHAR_DOUBLE_QUOTE] ++ LF
  ++ str "    }" ++ LF
  ++ str "}" ++ LF.

Definition demo_wasm : jsstring := [0; 97; 115; 109; 1; 0; 0; 0]%N.

Definition demo_world : world :=
  World (str "/proj")
    (list_to_map
       [(str "/proj/my-crate/pkg/my_crate.js", demo_loader (str "my_crate_bg.wasm"));
        (str "/proj/my-crate/pkg/my_crate_bg.wasm", demo_wasm);
        (str "/proj/node_modules/test-npm-crate/test_npm_crate.js",
         demo_loader (str "test_npm_crate_bg.wasm"));
        (str "/proj/node_modules/test-npm-crate/test_npm_crate_bg.wasm", demo_wasm)])
    (list_to_set
       [str "/proj"; str "/proj/my-crate"; str "/proj/my-crate/pkg";
        str "/proj/fresh-crate"; str "/proj/node_modules";
        str "/proj/node_modules/test-npm-crate"])
    (list_to_map
       [(str "test-npm-crate", str "/proj/node_modules/test-npm-crate/test_npm_crate.js")])
    [] [].

(** The state of [wasmPack(['./my-crate'], ['test-npm-crate'])]. *)
Definition demo_plugin : plugin :=
  Plugin [str "./my-crate"] [str "test-npm-crate"]
    [(str "my_crate_bg.wasm", Crate (str "my-crate/pkg/my_crate_bg.wasm") false);
     (str "test_npm_crate_bg.wasm",
      Crate (str "/proj/node_modules/test-npm-crate/test_npm_crate_bg.wasm") true)].

Definition empty_response : response := Response None ∅ None.

(** A project whose installed package [bare] has no loader script beside
    its entry point. *)
Definition bare_world : world :=
  World (str "/proj") ∅ (list_to_set [str "/proj/node_modules/bare"])
    (list_to_map [(str "bare", str "/proj/node_modules/bare/index.js")]) [] [].

(** The state of [wasmPack(['./my-crate', './fresh-crate'])]. *)
Definition demo_plugin_two : plugin :=
  Plugin [str "./my-crate"; str "./fresh-crate"] []
    [(str "my_crate_bg.wasm", Crate (str "my-crate/pkg/my_crate_bg.wasm") false);
     (str "fresh_crate_bg.wasm", Crate (str "fresh-crate/pkg/fresh_crate_bg.wasm") false)].

(** The asset [buildEnd] registers for an entry of the mapping when the
    binary is on disk. *)
Definition asset_of (w : world) (kv : jsstring * CrateType) : asset :=
  Asset (str "assets/" ++ kv.1)
        (default [] (files w !! path.resolve (cwd w) (crate_path kv.2))).

Definition CHAR_SINGLE_QUOTE : char := 39%N.
Definition CHAR_SEMICOLON : char := 59%N.

(** The text up to the first line terminator. *)
Definition first_line (s : jsstring) : jsstring :=
  take_while (λ c, negb (is_line_terminator c)) s.



(** A path segment that normalisation keeps as it is: not empty, without
    separator, and neither [.] nor [..]. *)
Definition plain_segment (s : jsstring) : Prop :=
  s ≠ [] ∧ (CHAR_FORWARD_SLASH ∉ s) ∧ s ≠ str "." ∧ s ≠ str "..".

(** The segments with a separator between them. *)
Fixpoint join_segments (segs : list jsstring) : jsstring :=
  match segs with
  | [] => []
  | [s] => s
  | s :: rest => s ++ str "/" ++ join_segments rest
  end.

(** What [normalizeString] has in [res] after it went through [segs],
    starting from [r]. *)
Fixpoint append_segments (r : jsstring) (segs : list jsstring) : jsstring :=
  match segs with
  | [] => r
  | s :: rest =>
      append_segments (if path.len r >? 0 then r ++ str "/" ++ s else s) rest
  end.

(** The counter [dots] of [normalizeString] after the characters [u] of one
    segment, starting from [d]. *)
Fixpoint dots_after (d : Z) (u : jsstring) : Z :=
  match u with
  | [] => d
  | c :: u' =>
      dots_after (if (c =? CHAR_DOT)%N && negb (d =? -1) then d + 1 else -1) u'
  end.

(** What [basename] returns for the pair [(start, end)] its loop computed. *)
Definition seg_of (p : jsstring) (se : Z * Z) : jsstring :=
  if se.2 =? -1 then [] else slice p se.1 se.2.

(** * Properties *)

(** ** [String.prototype.replace] *)

Section replace_facts.
Context (r : regex) (f : option jsstring → jsstring).

Lemma dot_plus_Some {A} (s : jsstring) (k : jsstring → jsstring → option A) (x : A) :
  dot_plus s k = Some x →
  ∃ g rest, s = g ++ rest ∧ g ≠ [] ∧ k g rest = Some x
            ∧ Forall (λ c, is_line_terminator c = false) g.
Proof.
  revert k. induction s as [|c s IH]; intros k; simpl; [done|].
  destruct (is_line_terminator c) eqn:Hc; [done|].
  destruct (dot_plus s _) as [y|] eqn:Hin.
  - intros [= ->]. apply IH in Hin as (g & rest & -> & _ & Hk & Hg).
    exists (c :: g), rest. repeat split; auto.
  - intros Hk. exists [c], s. repeat split; auto.
Qed.

Lemma strip_prefix_Some (l s s' : jsstring) :
  strip_prefix l s = Some s' ↔ s = l ++ s'.
Proof.
  revert s. induction l as [|a l IH]; intros s; simpl.
  - split; [by intros [= ->]|by intros ->].
  - destruct s as [|b s]; [done|].
    destruct (N.eqb_spec a b) as [->|Hne].
    + rewrite IH. split; [by intros ->|by intros [= ->]].
    + split; [done|]. intros [= -> _]. done.
Qed.

Lemma strip_prefix_app (l s : jsstring) : strip_prefix l (l ++ s) = Some s.
Proof. by apply strip_prefix_Some. Qed.

Lemma match_here_length (r' : regex) (s : jsstring) g g' rest :
  match_here r' s g = Some (g', rest) → (length rest ≤ length s)%nat.
Proof.
  revert s g. induction r' as [|a r' IH]; intros s g; simpl.
  - by intros [= _ ->].
  - destruct a.
    + destruct (strip_prefix l s) as [s'|] eqn:Hl; [|done].
      apply strip_prefix_Some in Hl as ->. intros H%IH.
      rewrite length_app. lia.
    + intros (g0 & rest0 & -> & _ & H%IH & _)%dot_plus_Some.
      rewrite length_app. lia.
    + intros (g0 & rest0 & -> & _ & H%IH & _)%dot_plus_Some.
      rewrite length_app. lia.
Qed.

(** Any fuel above the length of the input gives the same result. *)
Lemma replace_loop_fuel (n1 n2 : nat) (s : jsstring) :
  (length s < n1)%nat → (length s < n2)%nat →
  replace_loop n1 r f s = replace_loop n2 r f s.
Proof.
  revert n2 s. induction n1 as [|n1 IH]; intros n2 s H1 H2; [lia|].
  destruct n2 as [|n2]; [lia|]. simpl.
  destruct (match_here r s None) as [[g rest]|] eqn:Hm.
  - destruct (Nat.ltb_spec (length rest) (length s)).
    + f_equal. apply IH; lia.
    + destruct s as [|c s]; [done|]. simpl in *. do 2 f_equal. apply IH; lia.
  - destruct s as [|c s]; [done|]. simpl in *. f_equal. apply IH; lia.
Qed.

Lemma replace_nil_nomatch : match_here r [] None = None → replace r f [] = [].
Proof. unfold replace. simpl. by intros ->. Qed.

Lemma replace_cons_nomatch (c : char) (s : jsstring) :
  match_here r (c :: s) None = None → replace r f (c :: s) = c :: replace r f s.
Proof. unfold replace. cbn [replace_loop length]. by intros ->. Qed.

Lemma replace_match (s : jsstring) g rest :
  match_here r s None = Some (g, rest) → (length rest < length s)%nat →
  replace r f s = f g ++ replace r f rest.
Proof.
  intros Hm Hlt. unfold replace.
  change (replace_loop (S (length s)) r f s) with
    (match match_here r s None with
     | Some (g, rest) =>
         if (length rest <? length s)%nat
         then f g ++ replace_loop (length s) r f rest
         else match s with
              | [] => f g
              | c :: s' => f g ++ c :: replace_loop (length s) r f s'
              end
     | None => match s with
               | [] => []
               | c :: s' => c :: replace_loop (length s) r f s'
               end
     end).
  rewrite Hm.
  destruct (Nat.ltb_spec (length rest) (length s)); [|lia].
  f_equal. apply replace_loop_fuel; lia.
Qed.

(** The text before the first match is kept. *)
Lemma replace_skip (pre s : jsstring) :
  (∀ i, (i < length pre)%nat → match_here r (drop i (pre ++ s)) None = None) →
  replace r f (pre ++ s) = pre ++ replace r f s.
Proof.
  induction pre as [|c pre IH]; intros H; [done|].
  simpl. rewrite replace_cons_nomatch.
  - f_equal. apply IH. intros i Hi. apply (H (S i)). simpl. lia.
  - apply (H 0%nat). simpl. lia.
Qed.

(** Pattern not found: the text is unchanged. *)
Lemma replace_nomatch (s : jsstring) :
  (∀ i, match_here r (drop i s) None = None) → replace r f s = s.
Proof.
  intros H. rewrite <-(app_nil_r s) at 1. rewrite replace_skip.
  - rewrite replace_nil_nomatch, ?app_nil_r; [done|].
    specialize (H (length s)). by rewrite drop_all in H.
  - intros i _. rewrite app_nil_r. apply H.
Qed.
End replace_facts.

(** [/\-/g] with the replacement ['_'] maps the characters one by one. *)
Lemma hyphens_to_underscores_map (s : jsstring) :
  hyphens_to_underscores s = hyphen_to_underscore <$> s.
Proof.
  unfold hyphens_to_underscores. induction s as [|c s IH]; [done|].
  rewrite fmap_cons, <-IH. unfold hyphen_to_underscore.
  destruct (N.eqb_spec c CHAR_HYPHEN) as [->|Hne].
  - rewrite (replace_match _ _ (CHAR_HYPHEN :: s) None s); [done|done|simpl; lia].
  - rewrite replace_cons_nomatch; [done|].
    change (match strip_prefix [CHAR_HYPHEN] (c :: s) with
            | Some s' => Some (None, s')
            | None => None
            end = @None (option jsstring * jsstring)).
    cbn [strip_prefix]. destruct (N.eqb_spec CHAR_HYPHEN c) as [<-|]; done.
Qed.

(** ** Node's [path] module on examples *)

Example basename_trailing_separators : path.basename (str "a/b-c//") = str "b-c".
Proof. vm_compute. reflexivity. Qed.

Example basename_root : path.basename (str "/") = [].
Proof. vm_compute. reflexivity. Qed.

Example dirname_scoped_package :
  path.dirname (str "/proj/node_modules/@group/test/test.js")
  = str "/proj/node_modules/@group/test".
Proof. vm_compute. reflexivity. Qed.

Example dirname_bare : path.dirname (str "a") = str ".".
Proof. vm_compute. reflexivity. Qed.

Example join_local_crate :
  path.join [str "../../my-crate"; pkg; str "my_crate_bg.wasm"]
  = str "../../my-crate/pkg/my_crate_bg.wasm".
Proof. vm_compute. reflexivity. Qed.

Example join_node_modules :
  path.join [str "./node_modules"; str "my-crate"; str "my_crate.js"]
  = str "node_modules/my-crate/my_crate.js".
Proof. vm_compute. reflexivity. Qed.

Example join_dot_dot :
  path.join [str "a/b/../../../c/./d//e/"; str ".."] = str "../c/d".
Proof. vm_compute. reflexivity. Qed.

Example join_above_root : path.join [str "/a/../.."; str "x"] = str "/x".
Proof. vm_compute. reflexivity. Qed.

Example join_empty : path.join [[]; []] = str ".".
Proof. vm_compute. reflexivity. Qed.

Example resolve_relative :
  path.resolve (str "/proj") (str "node_modules/x/../y.js") = str "/proj/node_modules/y.js".
Proof. vm_compute. reflexivity. Qed.

Example resolve_absolute : path.resolve (str "/proj") (str "/abs//p/") = str "/abs/p".
Proof. vm_compute. reflexivity. Qed.

(** ** [path.basename] *)

Section basename_facts.
Import path.

Lemma charCodeAt_lookup (p : jsstring) (i : nat) :
  (i < length p)%nat → p !! i = Some (charCodeAt p i).
Proof.
  intros Hi. unfold charCodeAt. rewrite nth_lookup.
  destruct (p !! i) eqn:E; [done|]. apply lookup_ge_None in E. lia.
Qed.

(** Once the end of the segment is known, the loop looks for its start. *)
Lemma basename_loop_start (p : jsstring) (n e : nat) :
  (n ≤ e)%nat → (e ≤ length p)%nat →
  seg_of p (basename_loop p n (Z.of_nat e) false) =
    reverse (take_while (λ c, negb (isPosixPathSeparator c)) (reverse (take n p)))
      ++ take (e - n) (drop n p).
Proof.
  intros Hne He. induction n as [|i IH].
  - simpl. unfold seg_of, slice. simpl.
    destruct (Z.eqb_spec (Z.of_nat e) (-1)); [lia|].
    rewrite drop_0. f_equal; lia.
  - pose proof (charCodeAt_lookup p i ltac:(lia)) as Hc.
    rewrite (take_S_r _ _ _ Hc), reverse_snoc. cbn [basename_loop take_while].
    unfold isPosixPathSeparator.
    destruct (charCodeAt p i =? CHAR_FORWARD_SLASH)%N eqn:Hsl; cbn [negb].
    + unfold seg_of, slice. cbn [fst snd].
      destruct (Z.eqb_spec (Z.of_nat e) (-1)); [lia|].
      simpl. f_equal; [f_equal; lia | f_equal; lia].
    + destruct (Z.eqb_spec (Z.of_nat e) (-1)); [lia|].
      rewrite IH by lia. rewrite reverse_cons, <-app_assoc. f_equal.
      rewrite (drop_S _ _ _ Hc). replace (e - i)%nat with (S (e - S i)) by lia.
      done.
Qed.

Lemma basename_loop_end (p : jsstring) (n : nat) :
  (n ≤ length p)%nat →
  seg_of p (basename_loop p n (-1) true) = last_segment (take n p).
Proof.
  intros Hn. unfold last_segment. induction n as [|i IH]; [done|].
  pose proof (charCodeAt_lookup p i ltac:(lia)) as Hc.
  rewrite (take_S_r _ _ _ Hc), reverse_snoc. cbn [basename_loop drop_while].
  unfold isPosixPathSeparator at 2.
  destruct (charCodeAt p i =? CHAR_FORWARD_SLASH)%N eqn:Hsl; cbn [negb].
  - apply IH. lia.
  - simpl (-1 =? -1). cbn iota. cbn [take_while]. unfold isPosixPathSeparator at 1.
    rewrite Hsl. cbn [negb]. rewrite reverse_cons.
    replace (Z.of_nat i + 1) with (Z.of_nat (S i)) by lia.
    rewrite basename_loop_start by lia.
    rewrite (drop_S _ _ _ Hc). replace (S i - i)%nat with 1%nat by lia. done.
Qed.

(** Node's [basename] computes the last path segment. *)
Lemma basename_last_segment (p : jsstring) : basename p = last_segment p.
Proof.
  rewrite <-(firstn_all p) at 2. rewrite <-basename_loop_end by done.
  unfold basename, seg_of. by destruct (basename_loop _ _ _ _).
Qed.

(** A name without separator is its own base name. *)
Lemma basename_bare (p : jsstring) : CHAR_FORWARD_SLASH ∉ p → basename p = p.
Proof.
  intros Hp. rewrite basename_last_segment. unfold last_segment.
  assert (Forall (λ c, isPosixPathSeparator c = false) (reverse p)) as Hall.
  { apply Forall_forall. intros c Hc. rewrite elem_of_reverse in Hc. unfold isPosixPathSeparator.
    destruct (N.eqb_spec c CHAR_FORWARD_SLASH) as [->|]; done. }
  rewrite <-(reverse_involutive p) at 2. f_equal.
  induction Hall as [|c l Hc Hl IH]; [done|].
  cbn [drop_while]. rewrite Hc. cbn [take_while]. rewrite Hc. cbn [negb]. f_equal.
  clear IH. induction Hl as [|d l Hd Hl IH]; [done|].
  cbn [take_while]. rewrite Hd. cbn [negb]. by f_equal.
Qed.
End basename_facts.

(** C1: for every source identifier [s] the derived file name is the last
    path segment of [s] with every hyphen replaced by an underscore, followed
    by ["_bg.wasm"]; the derivation is a total function, and
    ["../my-crate"] derives ["my_crate_bg.wasm"]. *)
Theorem C1_wasmFilename_derivation :
  (∀ s : jsstring,
     wasmFilename s = (hyphen_to_underscore <$> last_segment s) ++ str "_bg.wasm")
  ∧ wasmFilename (str "../my-crate") = str "my_crate_bg.wasm".
Proof.
  split.
  - intros s. unfold wasmFilename.
    by rewrite hyphens_to_underscores_map, basename_last_segment.
  - vm_compute. reflexivity.
Qed.

(** ** [Map] *)

Section jsmap_facts.
Context {V : Type}.
Implicit Types (m : list (jsstring * V)) (k : jsstring) (v : V).

Lemma get_set_eq m k v : JsMap.get (JsMap.set m k v) k = Some v.
Proof.
  induction m as [|[k' v'] m IH]; simpl.
  - by rewrite decide_True.
  - destruct (decide (k' = k)) as [->|Hne]; simpl.
    + by rewrite decide_True.
    + by rewrite decide_False.
Qed.

Lemma get_set_ne m k k' v : k ≠ k' → JsMap.get (JsMap.set m k v) k' = JsMap.get m k'.
Proof.
  intros Hne. induction m as [|[k0 v0] m IH]; simpl.
  - by rewrite decide_False.
  - destruct (decide (k0 = k)) as [->|Hne0]; simpl.
    + by rewrite !decide_False.
    + by rewrite IH.
Qed.

Lemma keys_set_elem m k v k' :
  k' ∈ JsMap.keys (JsMap.set m k v) ↔ k' = k ∨ k' ∈ JsMap.keys m.
Proof.
  unfold JsMap.keys. induction m as [|[k0 v0] m IH]; simpl.
  - rewrite list_elem_of_singleton, elem_of_nil. tauto.
  - destruct (decide (k0 = k)) as [->|Hne]; simpl.
    + rewrite !elem_of_cons. tauto.
    + rewrite !elem_of_cons, IH. tauto.
Qed.

(** [set] never makes a second entry for a key. *)
Lemma keys_set_NoDup m k v : NoDup (JsMap.keys m) → NoDup (JsMap.keys (JsMap.set m k v)).
Proof.
  induction m as [|[k0 v0] m IH]; simpl; intros Hnd.
  - apply NoDup_singleton.
  - apply NoDup_cons in Hnd as [Hk0 Hnd].
    destruct (decide (k0 = k)) as [->|Hne]; simpl.
    + by apply NoDup_cons.
    + apply NoDup_cons. split; [|by apply IH].
      intros [?|?]%keys_set_elem; done.
Qed.

Lemma get_None_filter m k :
  k ∉ JsMap.keys m → filter (λ kv, kv.1 = k) m = [].
Proof.
  unfold JsMap.keys. induction m as [|[k0 v0] m IH]; [done|].
  simpl. rewrite not_elem_of_cons. intros [Hne Hk].
  rewrite filter_cons_False; [by apply IH|]. simpl. congruence.
Qed.

(** A key that is found has exactly one entry, the one found. *)
Lemma get_Some_filter m k v :
  NoDup (JsMap.keys m) → JsMap.get m k = Some v →
  filter (λ kv, kv.1 = k) m = [(k, v)].
Proof.
  induction m as [|[k0 v0] m IH]; [done|].
  simpl. intros [Hk0 Hnd]%NoDup_cons.
  destruct (decide (k0 = k)) as [->|Hne].
  - intros [= ->]. rewrite filter_cons_True by done.
    by rewrite get_None_filter.
  - intros Hget. rewrite filter_cons_False by done. by apply IH.
Qed.
End jsmap_facts.

(** ** The resolution mapping *)

Section wasmMap_facts.
Implicit Types (m : list (jsstring * CrateType)) (l : list jsstring).

Lemma add_crates_app l1 l2 m :
  add_crates (l1 ++ l2) m = add_crates l2 (add_crates l1 m).
Proof. revert m. induction l1 as [|c l1 IH]; intros m; simpl; [done|]. by rewrite IH. Qed.

Lemma add_crates_get_other l m k :
  (∀ s, s ∈ l → wasmFilename s ≠ k) →
  JsMap.get (add_crates l m) k = JsMap.get m k.
Proof.
  revert m. induction l as [|c l IH]; intros m H; simpl; [done|].
  rewrite IH.
  - apply get_set_ne, H. left.
  - intros s Hs. apply H. by right.
Qed.

Lemma add_crates_NoDup l m :
  NoDup (JsMap.keys m) → NoDup (JsMap.keys (add_crates l m)).
Proof.
  revert m. induction l as [|c l IH]; intros m H; simpl; [done|].
  by apply IH, keys_set_NoDup.
Qed.

(** [add_modules] only reads the world. *)
Lemma add_modules_world l m w m' w' :
  add_modules l m w = (Ok m', w') → w' = w.
Proof.
  revert m. induction l as [|c l IH]; intros m; simpl.
  - by intros [= _ ->].
  - unfold mbind, M_bind, require_resolve.
    destruct (installed w !! c); [apply IH|done].
Qed.

Lemma add_modules_cons c l m w m' w' :
  add_modules (c :: l) m w = (Ok m', w') →
  ∃ entry, installed w !! c = Some entry ∧
    add_modules l (JsMap.set m (wasmFilename c)
                     (Crate (path.join [path.dirname entry; wasmFilename c]) true)) w
    = (Ok m', w').
Proof.
  simpl. unfold mbind, M_bind, require_resolve.
  destruct (installed w !! c) as [entry|]; [|done]. intros H. by exists entry.
Qed.

Lemma add_modules_get_other l m w m' w' k :
  add_modules l m w = (Ok m', w') →
  (∀ s, s ∈ l → wasmFilename s ≠ k) →
  JsMap.get m' k = JsMap.get m k.
Proof.
  revert m. induction l as [|c l IH]; intros m.
  - by intros [= -> _].
  - intros (entry & _ & Hl)%add_modules_cons H.
    rewrite (IH _ Hl).
    + apply get_set_ne, H. left.
    + intros s Hs. apply H. by right.
Qed.

Lemma add_modules_NoDup l m w m' w' :
  add_modules l m w = (Ok m', w') →
  NoDup (JsMap.keys m) → NoDup (JsMap.keys m').
Proof.
  revert m. induction l as [|c l IH]; intros m.
  - by intros [= -> _].
  - intros (entry & _ & Hl)%add_modules_cons H.
    by apply (IH _ Hl), keys_set_NoDup.
Qed.

Lemma add_modules_split l1 c l2 m w m' w' :
  add_modules (l1 ++ c :: l2) m w = (Ok m', w') →
  ∃ entry m1, installed w !! c = Some entry ∧
    add_modules l2 (JsMap.set m1 (wasmFilename c)
                      (Crate (path.join [path.dirname entry; wasmFilename c]) true)) w
    = (Ok m', w').
Proof.
  revert m. induction l1 as [|c1 l1 IH]; intros m.
  - intros (entry & He & Hl)%add_modules_cons. by exists entry, m.
  - intros (entry & _ & Hl)%add_modules_cons. by apply IH in Hl.
Qed.

Lemma vitePluginWasmPack_Ok crates moduleCrates w pl w' :
  vitePluginWasmPack crates moduleCrates w = (Ok pl, w') →
  cratePaths pl = cratePaths_of crates ∧
  modulePaths pl = modulePaths_of moduleCrates ∧
  add_modules (modulePaths pl) (add_crates (cratePaths pl) []) w = (Ok (wasmMap pl), w).
Proof.
  unfold vitePluginWasmPack, mbind, M_bind, mret, M_ret.
  destruct (add_modules _ _ w) as [[m|e] w1] eqn:Hm; [|done].
  intros [= <- <-]. simpl. rewrite Hm.
  by rewrite (add_modules_world _ _ _ _ _ Hm).
Qed.
End wasmMap_facts.

(** C9: the mapping built at startup has at most one entry per derived file
    name, and for declared sources whose derived file names coincide the one
    entry kept records the location and kind of the last source processed
    (local sources are processed first, installed packages after them). *)
Theorem C9_last_source_wins crates moduleCrates w pl w' :
  vitePluginWasmPack crates moduleCrates w = (Ok pl, w') →
  NoDup (JsMap.keys (wasmMap pl))
  ∧ (∀ l1 s l2, cratePaths_of crates = l1 ++ s :: l2 →
       (∀ s', s' ∈ l2 ++ modulePaths_of moduleCrates → wasmFilename s' ≠ wasmFilename s) →
       filter (λ kv, kv.1 = wasmFilename s) (wasmMap pl)
       = [(wasmFilename s, Crate (path.join [s; pkg; wasmFilename s]) false)])
  ∧ (∀ l1 s l2, modulePaths_of moduleCrates = l1 ++ s :: l2 →
       (∀ s', s' ∈ l2 → wasmFilename s' ≠ wasmFilename s) →
       ∃ entry, installed w !! s = Some entry ∧
         filter (λ kv, kv.1 = wasmFilename s) (wasmMap pl)
         = [(wasmFilename s,
             Crate (path.join [path.dirname entry; wasmFilename s]) true)]).
Proof.
  intros (Hc & Hm & Hadd)%vitePluginWasmPack_Ok. rewrite Hc, Hm in Hadd.
  assert (NoDup (JsMap.keys (wasmMap pl))) as Hnd.
  { eapply add_modules_NoDup; [exact Hadd|]. apply add_crates_NoDup. constructor. }
  split; [done|]. split.
  - intros l1 s l2 Hl Hlast. apply get_Some_filter; [done|].
    rewrite (add_modules_get_other _ _ _ _ _ _ Hadd).
    + rewrite Hl, add_crates_app. simpl. rewrite add_crates_get_other.
      * apply get_set_eq.
      * intros s' Hs'. apply Hlast. apply elem_of_app. by left.
    + intros s' Hs'. apply Hlast. apply elem_of_app. by right.
  - intros l1 s l2 Hl Hlast. rewrite Hl in Hadd.
    apply add_modules_split in Hadd as (entry & m1 & He & Hadd).
    exists entry. split; [done|]. apply get_Some_filter; [done|].
    rewrite (add_modules_get_other _ _ _ _ _ _ Hadd Hlast). apply get_set_eq.
Qed.

Example demo_plugin_built :
  vitePluginWasmPack (One (str "./my-crate")) (Some (One (str "test-npm-crate"))) demo_world
  = (Ok demo_plugin, demo_world).
Proof. vm_compute. reflexivity. Qed.

Lemma C9_last_source_wins_witness :
  vitePluginWasmPack (Many [str "my-crate"; str "my_crate"]) None demo_world
  = (Ok (Plugin [str "my-crate"; str "my_crate"] []
           [(str "my_crate_bg.wasm", Crate (str "my_crate/pkg/my_crate_bg.wasm") false)]),
     demo_world)
  ∧ filter (λ kv, kv.1 = wasmFilename (str "my_crate"))
      [(str "my_crate_bg.wasm", Crate (str "my_crate/pkg/my_crate_bg.wasm") false)]
    = [(wasmFilename (str "my_crate"),
        Crate (path.join [str "my_crate"; pkg; wasmFilename (str "my_crate")]) false)].
Proof.
  assert (vitePluginWasmPack (Many [str "my-crate"; str "my_crate"]) None demo_world
          = (Ok (Plugin [str "my-crate"; str "my_crate"] []
                   [(str "my_crate_bg.wasm",
                     Crate (str "my_crate/pkg/my_crate_bg.wasm") false)]),
             demo_world)) as Hbuild by (vm_compute; reflexivity).
  split; [exact Hbuild|].
  destruct (C9_last_source_wins _ _ _ _ _ Hbuild) as (_ & Hlocal & _).
  apply (Hlocal [str "my-crate"] (str "my_crate") []); [reflexivity|].
  intros s' Hs'. simpl in Hs'. inversion Hs'.
Defined.

(** ** [resolveId] *)

Lemma resolveId_loop_Some (l : list jsstring) (id : jsstring) :
  resolveId_loop l id = Some (prefix ++ id) ↔ ∃ c, c ∈ l ∧ path.basename c = id.
Proof.
  induction l as [|c l IH]; simpl.
  - split; [done|]. intros (c & Hc & _). inversion Hc.
  - destruct (decide (path.basename c = id)) as [Heq|Hne].
    + split; [|done]. intros _. exists c. split; [left|done].
    + rewrite IH. split.
      * intros (c' & Hc' & Heq). exists c'. split; [by right|done].
      * intros (c' & Hc' & Heq). exists c'. split; [|done].
        apply elem_of_cons in Hc' as [->|]; done.
Qed.

Lemma resolveId_loop_None (l : list jsstring) (id : jsstring) :
  resolveId_loop l id = None ↔ ∀ c, c ∈ l → path.basename c ≠ id.
Proof.
  induction l as [|c l IH]; simpl.
  - split; [|done]. intros _ c Hc. inversion Hc.
  - destruct (decide (path.basename c = id)) as [Heq|Hne].
    + split; [done|]. intros H. destruct (H c); [left|done].
    + rewrite IH. split.
      * intros H c' [->|Hc']%elem_of_cons; auto.
      * intros H c' Hc'. apply H. by right.
Qed.

(** C7, as the code has it: the hook rewrites a requested id to the marker
    identifier exactly when the id itself equals the base name of a declared
    local source directory, and answers null otherwise; the declared
    installed packages play no part.  For an id without a path separator the
    id is its own base name, so there the comparison is one of base names. *)
Theorem C7_resolveId_exact_name (pl : plugin) (id : jsstring) :
  (resolveId pl id = Some (prefix ++ id) ↔ ∃ c, c ∈ cratePaths pl ∧ path.basename c = id)
  ∧ (resolveId pl id = None ↔ ∀ c, c ∈ cratePaths pl → path.basename c ≠ id)
  ∧ (CHAR_FORWARD_SLASH ∉ id →
     (resolveId pl id = Some (prefix ++ id)
      ↔ ∃ c, c ∈ cratePaths pl ∧ path.basename c = path.basename id)).
Proof.
  unfold resolveId. split; [apply resolveId_loop_Some|].
  split; [apply resolveId_loop_None|].
  intros Hbare. rewrite (basename_bare id Hbare). apply resolveId_loop_Some.
Qed.

Lemma C7_resolveId_exact_name_witness :
  (CHAR_FORWARD_SLASH ∉ str "my-crate")
  ∧ (resolveId demo_plugin (str "my-crate") = Some (prefix ++ str "my-crate")
     ↔ ∃ c, c ∈ cratePaths demo_plugin
            ∧ path.basename c = path.basename (str "my-crate")).
Proof.
  assert (CHAR_FORWARD_SLASH ∉ str "my-crate") as Hbare.
  { apply (bool_decide_unpack _). vm_compute. reflexivity. }
  split; [exact Hbare|].
  exact (proj2 (proj2 (C7_resolveId_exact_name demo_plugin (str "my-crate"))) Hbare).
Defined.

(** The claim C7 as stated fails twice: an id with a directory part whose
    base name is that of a local crate is not rewritten, and a declared
    installed package that shares its name with a local crate is. *)
Lemma C7_counterexample :
  ∃ pl,
    vitePluginWasmPack (One (str "./my-crate")) (Some (One (str "my-crate")))
      (World (str "/proj") ∅ ∅
         (list_to_map [(str "my-crate", str "/proj/node_modules/my-crate/my_crate.js")])
         [] [])
    = (Ok pl, World (str "/proj") ∅ ∅
         (list_to_map [(str "my-crate", str "/proj/node_modules/my-crate/my_crate.js")])
         [] [])
    ∧ path.basename (str "x/my-crate") = path.basename (str "./my-crate")
    ∧ str "./my-crate" ∈ cratePaths pl
    ∧ resolveId pl (str "x/my-crate") = None
    ∧ str "my-crate" ∈ modulePaths pl
    ∧ resolveId pl (str "my-crate") = Some (prefix ++ str "my-crate").
Proof.
  eexists. split; [vm_compute; reflexivity|].
  split; [vm_compute; reflexivity|].
  split; [left|]. split; [vm_compute; reflexivity|].
  split; [left|]. vm_compute. reflexivity.
Qed.

(** ** The development-server middleware *)

(** C10: a request whose URL is not a string is left alone: the response is
    untouched (no status, no header, no body) and [next] is not called. *)
Theorem C10_non_string_url_ignored (pl : plugin) (w : world) (res : response) :
  middleware pl w (Request None) res = (res, false).
Proof. reflexivity. Qed.

(** C4: a request whose URL has a base name that is a key of the mapping and
    ends in [.wasm] is answered with status 200, [Content-Type:
    application/wasm], [Cache-Control: no-cache, no-store, must-revalidate]
    and the bytes of the file at the path the mapping records; [next] is not
    called. *)
Theorem C4_serves_wasm (pl : plugin) (w : world) (u : jsstring) (res : response)
    (entry : CrateType) (bytes : jsstring) :
  JsMap.get (wasmMap pl) (path.basename u) = Some entry →
  endsWith (path.basename u) (str ".wasm") = true →
  files w !! path.resolve (cwd w) (crate_path entry) = Some bytes →
  ∃ res', middleware pl w (Request (Some u)) res = (res', false)
    ∧ statusCode res' = Some 200
    ∧ headers res' !! str "Content-Type" = Some (str "application/wasm")
    ∧ headers res' !! str "Cache-Control" = Some (str "no-cache, no-store, must-revalidate")
    ∧ body res' = Some bytes.
Proof.
  intros Hget Hext Hfile. unfold middleware. cbn [url].
  rewrite Hext, Hget. unfold pipe_file. rewrite Hfile.
  eexists. split; [reflexivity|]. cbn [statusCode headers body writeHead setHeader foldl fst snd].
  split; [done|]. split; [apply lookup_insert_eq|]. split; [|done].
  rewrite lookup_insert_ne; [apply lookup_insert_eq|].
  apply (bool_decide_unpack _). vm_compute. reflexivity.
Qed.

Lemma C4_serves_wasm_witness :
  JsMap.get (wasmMap demo_plugin) (path.basename (str "/whatever/my_crate_bg.wasm"))
  = Some (Crate (str "my-crate/pkg/my_crate_bg.wasm") false)
  ∧ endsWith (path.basename (str "/whatever/my_crate_bg.wasm")) (str ".wasm") = true
  ∧ files demo_world !! path.resolve (cwd demo_world) (str "my-crate/pkg/my_crate_bg.wasm")
    = Some demo_wasm
  ∧ ∃ res', middleware demo_plugin demo_world
              (Request (Some (str "/whatever/my_crate_bg.wasm"))) empty_response
            = (res', false)
    ∧ statusCode res' = Some 200
    ∧ headers res' !! str "Content-Type" = Some (str "application/wasm")
    ∧ headers res' !! str "Cache-Control" = Some (str "no-cache, no-store, must-revalidate")
    ∧ body res' = Some demo_wasm.
Proof.
  assert (JsMap.get (wasmMap demo_plugin) (path.basename (str "/whatever/my_crate_bg.wasm"))
          = Some (Crate (str "my-crate/pkg/my_crate_bg.wasm") false)) as H1
    by (vm_compute; reflexivity).
  assert (endsWith (path.basename (str "/whatever/my_crate_bg.wasm")) (str ".wasm") = true)
    as H2 by (vm_compute; reflexivity).
  assert (files demo_world !! path.resolve (cwd demo_world) (str "my-crate/pkg/my_crate_bg.wasm")
          = Some demo_wasm) as H3 by (vm_compute; reflexivity).
  split; [exact H1|]. split; [exact H2|]. split; [exact H3|].
  exact (C4_serves_wasm demo_plugin demo_world _ empty_response _ _ H1 H2 H3).
Defined.

(** C5, as the code has it: a request whose URL is a string and whose base
    name is not a key of the mapping or does not end in [.wasm] is passed to
    the next handler; before that the handler has set the [Cache-Control]
    header on the response, and it changes nothing else. *)
Theorem C5_pass_through_sets_cache_control (pl : plugin) (w : world) (u : jsstring)
    (res : response) :
  (JsMap.get (wasmMap pl) (path.basename u) = None
   ∨ endsWith (path.basename u) (str ".wasm") = false) →
  middleware pl w (Request (Some u)) res
  = (setHeader (str "Cache-Control") (str "no-cache, no-store, must-revalidate") res, true).
Proof.
  intros H. unfold middleware. cbn [url].
  destruct H as [-> | ->]; [|done].
  by destruct (endsWith _ _).
Qed.

Lemma C5_pass_through_sets_cache_control_witness :
  (JsMap.get (wasmMap demo_plugin) (path.basename (str "/whatever/unknown.wasm")) = None
   ∨ endsWith (path.basename (str "/whatever/unknown.wasm")) (str ".wasm") = false)
  ∧ middleware demo_plugin demo_world (Request (Some (str "/whatever/unknown.wasm")))
      empty_response
    = (setHeader (str "Cache-Control") (str "no-cache, no-store, must-revalidate")
         empty_response, true).
Proof.
  assert (JsMap.get (wasmMap demo_plugin) (path.basename (str "/whatever/unknown.wasm")) = None
          ∨ endsWith (path.basename (str "/whatever/unknown.wasm")) (str ".wasm") = false)
    as H by (left; vm_compute; reflexivity).
  split; [exact H|].
  exact (C5_pass_through_sets_cache_control demo_plugin demo_world _ empty_response H).
Defined.

(** The claim C5 as stated fails: the request for [/whatever/unknown.wasm]
    is passed on, but the response has gained a header. *)
Lemma C5_counterexample :
  JsMap.get (wasmMap demo_plugin) (path.basename (str "/whatever/unknown.wasm")) = None
  ∧ headers empty_response !! str "Cache-Control" = None
  ∧ ∃ res', middleware demo_plugin demo_world (Request (Some (str "/whatever/unknown.wasm")))
              empty_response = (res', true)
      ∧ headers res' !! str "Cache-Control"
        = Some (str "no-cache, no-store, must-revalidate")
      ∧ res' ≠ empty_response.
Proof.
  split; [vm_compute; reflexivity|]. split; [done|].
  eexists. split; [vm_compute; reflexivity|].
  split; [vm_compute; reflexivity|].
  intros H. apply (f_equal (λ r, headers r !! str "Cache-Control")) in H.
  vm_compute in H. discriminate H.
Qed.

(** ** [buildStart] *)

Lemma for_each_app {A} (l1 l2 : list A) (f : A → M ()) (w : world) :
  for_each (l1 ++ l2) f w =
    match for_each l1 f w with
    | (Ok _, w1) => for_each l2 f w1
    | (Err e, w1) => (Err e, w1)
    end.
Proof.
  revert w. induction l1 as [|x l1 IH]; intros w; [done|].
  simpl. unfold mbind, M_bind. destruct (f x w) as [[[]|e] w1]; [apply IH|done].
Qed.

(** A local crate without build output: the remediation line is printed, the
    copy of the missing directory fails and [this.error] ends the hook. *)
Lemma prepareBuild_missing_local (b a c : jsstring) (w : world) :
  fs.existsSync (path.join [c; pkg]) w = (Ok false, w) →
  prepareBuild b a c false w
  = (Err (PluginError (str "copy crates failed")),
     World (cwd w) (files w) (dirs w) (installed w)
       (console w ++ [missing_crate_message (path.join [c; pkg]) c]) (emitted w)).
Proof.
  unfold fs.existsSync. intros [= Hex]. apply bool_decide_eq_false in Hex.
  unfold prepareBuild, mbind, M_bind, mret, M_ret, fs.existsSync.
  rewrite bool_decide_false by done. cbn [negb when console_error].
  unfold try_catch, fs.copy. cbn [cwd dirs files].
  rewrite bool_decide_false by tauto.
  destruct (files w !! _) eqn:Hf; [|done].
  destruct Hex. left. by eexists.
Qed.

(** C8, as the code has it: when the build-output directory of a declared
    local source is absent, the remediation line naming the wasm-pack
    command is printed for that source, then the copy step fails on the
    missing directory and [buildStart] ends with the error "copy crates
    failed": the sources declared after it are not processed. *)
Theorem C8_missing_output_reported_then_fatal (b a : jsstring) (pl : plugin)
    (pre post : list jsstring) (c : jsstring) (w w1 : world) :
  cratePaths pl = pre ++ c :: post →
  for_each pre (λ cratePath, prepareBuild b a cratePath false) w = (Ok (), w1) →
  fs.existsSync (path.join [c; pkg]) w1 = (Ok false, w1) →
  buildStart b a pl w
  = (Err (PluginError (str "copy crates failed")),
     World (cwd w1) (files w1) (dirs w1) (installed w1)
       (console w1 ++ [missing_crate_message (path.join [c; pkg]) c]) (emitted w1)).
Proof.
  intros Hl Hpre Hmiss. unfold buildStart. rewrite Hl.
  unfold mbind at 1. unfold M_bind. rewrite for_each_app, Hpre.
  cbn [for_each]. unfold mbind at 1. unfold M_bind.
  by rewrite (prepareBuild_missing_local _ _ _ _ Hmiss).
Qed.

Lemma C8_missing_output_reported_then_fatal_witness :
  cratePaths (Plugin [str "./fresh-crate"; str "./my-crate"] [] []) 
  = [] ++ str "./fresh-crate" :: [str "./my-crate"]
  ∧ fs.existsSync (path.join [str "./fresh-crate"; pkg]) demo_world = (Ok false, demo_world)
  ∧ buildStart (str "/") (str "assets")
      (Plugin [str "./fresh-crate"; str "./my-crate"] [] []) demo_world
    = (Err (PluginError (str "copy crates failed")),
       World (cwd demo_world) (files demo_world) (dirs demo_world) (installed demo_world)
         (console demo_world
          ++ [missing_crate_message (path.join [str "./fresh-crate"; pkg])
                (str "./fresh-crate")])
         (emitted demo_world)).
Proof.
  assert (fs.existsSync (path.join [str "./fresh-crate"; pkg]) demo_world
          = (Ok false, demo_world)) as Hmiss by (vm_compute; reflexivity).
  split; [reflexivity|]. split; [exact Hmiss|].
  exact (C8_missing_output_reported_then_fatal (str "/") (str "assets")
           (Plugin [str "./fresh-crate"; str "./my-crate"] [] [])
           [] [str "./my-crate"] (str "./fresh-crate") demo_world demo_world
           eq_refl eq_refl Hmiss).
Defined.

(** The claim C8 as stated fails: with the unbuilt [./fresh-crate] declared
    before the built [./my-crate], the error is printed, the hook aborts and
    the loader script of [./my-crate] is never staged nor rewritten; without
    [./fresh-crate] it is. *)
Lemma C8_counterexample :
  ∃ pl w',
    vitePluginWasmPack (Many [str "./fresh-crate"; str "./my-crate"]) None demo_world
    = (Ok pl, demo_world)
    ∧ fs.existsSync (path.join [str "./fresh-crate"; pkg]) demo_world = (Ok false, demo_world)
    ∧ buildStart (str "/") (str "assets") pl demo_world
      = (Err (PluginError (str "copy crates failed")), w')
    ∧ console w'
      = [str "Error: Can't find fresh-crate/pkg, run wasm-pack build ./fresh-crate --target web first"]
    ∧ files w' !! str "/proj/node_modules/my-crate/my_crate.js" = None
    ∧ ∃ pl2 w2,
        vitePluginWasmPack (Many [str "./my-crate"]) None demo_world = (Ok pl2, demo_world)
        ∧ buildStart (str "/") (str "assets") pl2 demo_world = (Ok (), w2)
        ∧ files w2 !! str "/proj/node_modules/my-crate/my_crate.js"
          = Some (transform (str "/") (str "assets") (demo_loader (str "my_crate_bg.wasm"))).
Proof.
  do 2 eexists. split; [vm_compute; reflexivity|].
  split; [vm_compute; reflexivity|].
  split; [vm_compute; reflexivity|].
  split; [vm_compute; reflexivity|].
  split; [vm_compute; reflexivity|].
  do 2 eexists. split; [vm_compute; reflexivity|].
  split; vm_compute; reflexivity.
Qed.

(** ** The loader-script transformation *)

Lemma test_false (r : regex) (s : jsstring) :
  test r s = false ↔ ∀ i, match_here r (drop i s) None = None.
Proof.
  induction s as [|c s IH]; simpl.
  - destruct (match_here r [] None) eqn:Hm.
    + split; [done|]. intros H. specialize (H 0%nat). simpl in H. congruence.
    + split; [|done]. intros _ i. by rewrite drop_nil.
  - destruct (match_here r (c :: s) None) eqn:Hm.
    + split; [done|]. intros H. specialize (H 0%nat). simpl in H. congruence.
    + rewrite IH. split.
      * intros H [|i]; [done|apply H].
      * intros H i. apply (H (S i)).
Qed.

(** What a match of the detection pattern looks like: the literal
    [input = new URL('], the captured text, a quote, some more text on the
    same line and a semicolon. *)
Lemma match_here_url_regex (s : jsstring) g rest :
  match_here url_regex s None = Some (g, rest) →
  ∃ file mid,
    g = Some file
    ∧ s = str "input = new URL('" ++ file ++ str "'" ++ mid ++ str ";" ++ rest
    ∧ file ≠ [] ∧ mid ≠ []
    ∧ Forall (λ c, is_line_terminator c = false) (file ++ mid).
Proof.
  unfold url_regex. cbn [match_here].
  destruct (strip_prefix _ s) as [s1|] eqn:H1; [|done].
  apply strip_prefix_Some in H1 as ->.
  intros (file & r1 & -> & Hfile & Hk & Hlt1)%dot_plus_Some.
  destruct (strip_prefix _ r1) as [r2|] eqn:H2; [|done].
  apply strip_prefix_Some in H2 as ->.
  apply dot_plus_Some in Hk as (mid & r3 & -> & Hmid & Hk & Hlt2).
  destruct (strip_prefix _ r3) as [r4|] eqn:H3; [|done].
  apply strip_prefix_Some in H3 as ->.
  injection Hk as <- <-.
  exists file, mid. repeat split; try done.
  by apply Forall_app.
Qed.

(** *** Which reference a line of the loader gives up

    [.+] is greedy: of all the ways to split the input it tries the longest
    first. *)

Lemma dot_plus_None {A} (s : jsstring) (k : jsstring → jsstring → option A) :
  (∀ g rest, g ≠ [] → s = g ++ rest →
             Forall (λ c, is_line_terminator c = false) g → k g rest = None) →
  dot_plus s k = None.
Proof.
  revert k. induction s as [|c s IH]; intros k Hk; simpl; [done|].
  destruct (is_line_terminator c) eqn:Hc; [done|].
  rewrite IH.
  - apply Hk; [done|done|]. by constructor.
  - intros g rest Hg -> Hlt. apply Hk; [done|done|]. by constructor.
Qed.

Lemma dot_plus_greedy {A} (g rest : jsstring) (k : jsstring → jsstring → option A) (x : A) :
  g ≠ [] → Forall (λ c, is_line_terminator c = false) g →
  k g rest = Some x →
  (∀ g2 rest', g2 ≠ [] → rest = g2 ++ rest' →
               Forall (λ c, is_line_terminator c = false) g2 → k (g ++ g2) rest' = None) →
  dot_plus (g ++ rest) k = Some x.
Proof.
  revert k. induction g as [|c g IH]; intros k Hg Hlt Hk Hlonger; [done|].
  apply Forall_cons in Hlt as [Hc Hlt]. simpl. rewrite Hc.
  destruct g as [|c' g].
  - simpl. rewrite dot_plus_None; [done|].
    intros g2 rest' Hg2 Hrest Hlt2. by apply (Hlonger g2 rest').
  - by rewrite (IH (λ g0 r, k (c :: g0) r)).
Qed.

Lemma first_line_app (g r : jsstring) :
  Forall (λ c, is_line_terminator c = false) g →
  first_line (g ++ r) = g ++ first_line r.
Proof.
  unfold first_line. induction 1 as [|c g Hc Hg IH]; [done|].
  simpl. rewrite Hc. simpl. by rewrite IH.
Qed.

Lemma no_semicolon_drop (g r : jsstring) :
  Forall (λ c, is_line_terminator c = false) g →
  CHAR_SEMICOLON ∉ first_line (g ++ r) →
  CHAR_SEMICOLON ∉ first_line r.
Proof.
  intros Hg. rewrite first_line_app by done. rewrite elem_of_app. tauto.
Qed.

Lemma no_semicolon_head (r : jsstring) :
  CHAR_SEMICOLON ∉ first_line (CHAR_SEMICOLON :: r) → False.
Proof. intros H. apply H. left. Qed.

(** Without a semicolon on the line, [.+;] finds nothing. *)
Lemma dot_plus_semicolon_None (s : jsstring) (g1 : option jsstring) :
  CHAR_SEMICOLON ∉ first_line s →
  dot_plus s (λ _ s', match_here [Lit (str ";")] s' g1) = None.
Proof.
  intros Hs. apply dot_plus_None. intros g rest _ -> Hg.
  apply no_semicolon_drop in Hs; [|done].
  cbn [match_here]. destruct (strip_prefix _ rest) as [r|] eqn:Hr; [|done].
  apply strip_prefix_Some in Hr as ->. by apply no_semicolon_head in Hs.
Qed.

(** [.+;] runs to the last semicolon of the line. *)
Lemma dot_plus_semicolon_last (mid after : jsstring) (g1 : option jsstring) :
  mid ≠ [] → Forall (λ c, is_line_terminator c = false) mid →
  CHAR_SEMICOLON ∉ first_line after →
  dot_plus (mid ++ str ";" ++ after) (λ _ s', match_here [Lit (str ";")] s' g1)
  = Some (g1, after).
Proof.
  intros Hmid Hlt Hafter. apply dot_plus_greedy; [done|done|done|].
  intros g2 rest' Hg2 Hrest Hlt2.
  destruct g2 as [|c g2]; [done|]. injection Hrest as <- ->.
  apply Forall_cons in Hlt2 as [_ Hlt2].
  apply no_semicolon_drop in Hafter; [|done].
  cbn [match_here]. destruct (strip_prefix _ rest') as [r|] eqn:Hr; [|done].
  apply strip_prefix_Some in Hr as ->. by apply no_semicolon_head in Hafter.
Qed.

(** On a line [input = new URL('file'mid;after] where [mid] has no quote and
    no semicolon follows on the line, the pattern matches up to that
    semicolon and captures [file]. *)
Lemma match_here_url_line (file mid after : jsstring) :
  file ≠ [] → mid ≠ [] →
  Forall (λ c, is_line_terminator c = false) (file ++ mid) →
  CHAR_SINGLE_QUOTE ∉ mid →
  CHAR_SEMICOLON ∉ first_line after →
  match_here url_regex
    (str "input = new URL('" ++ file ++ str "'" ++ mid ++ str ";" ++ after) None
  = Some (Some file, after).
Proof.
  intros Hfile Hmid [Hlt1 Hlt2]%Forall_app Hquote Hafter.
  unfold url_regex. cbn [match_here]. rewrite strip_prefix_app.
  apply dot_plus_greedy; [done|done| |].
  - rewrite strip_prefix_app. by apply dot_plus_semicolon_last.
  - intros g2 rest' Hg2 Hrest Hg2lt.
    destruct g2 as [|c g2]; [done|]. injection Hrest as <- Hrest.
    apply Forall_cons in Hg2lt as [_ Hg2lt].
    destruct (strip_prefix _ rest') as [r|] eqn:Hr; [|done].
    apply strip_prefix_Some in Hr as ->.
    apply dot_plus_semicolon_None.
    apply app_eq_inv in Hrest as [(m & -> & Hm)|(m & -> & Hm)].
    + destruct m as [|c m].
      * discriminate Hm.
      * injection Hm as <- _. destruct Hquote.
        apply elem_of_app. right. left.
    + destruct m as [|c m]; [discriminate Hm|]. injection Hm as <- ->.
      apply Forall_app in Hg2lt as [_ [_ Hm]%Forall_cons].
      apply no_semicolon_drop in Hafter; [|done].
      intros Hin. apply Hafter. unfold first_line. simpl. by right.
Qed.

(** X21: The line wasm-pack generates, after text in which no match starts: the
    reference between the quotes is the one rewritten. *)
Lemma transform_url_line (b a pre file mid after : jsstring) :
  (∀ i, (i < length pre)%nat →
        match_here url_regex
          (drop i (pre ++ str "input = new URL('" ++ file ++ str "'" ++ mid ++ str ";" ++ after))
          None = None) →
  file ≠ [] → mid ≠ [] →
  Forall (λ c, is_line_terminator c = false) (file ++ mid) →
  CHAR_SINGLE_QUOTE ∉ mid →
  CHAR_SEMICOLON ∉ first_line after →
  transform b a (pre ++ str "input = new URL('" ++ file ++ str "'" ++ mid ++ str ";" ++ after)
  = pre ++ str "input = " ++ [CHAR_DOUBLE_QUOTE] ++ path.join [b; a; file]
        ++ [CHAR_DOUBLE_QUOTE] ++ transform b a after.
Proof.
  intros Hpre Hfile Hmid Hlt Hquote Hafter.
  pose proof (match_here_url_line file mid after Hfile Hmid Hlt Hquote Hafter) as Hm.
  unfold transform. rewrite replace_skip by done. f_equal.
  rewrite (replace_match _ _ _ _ _ Hm).
  - unfold rewrite_url. cbn [default from_option id]. by rewrite <-!app_assoc.
  - rewrite !length_app. simpl. lia.
Qed.

(** C2: where the transformer finds the detection pattern (its leftmost match
    starts after [pre], captures [file] and leaves [rest]), the match
    [input = new URL('file'...;] is replaced by the assignment of a string
    whose text is the POSIX join of the base path, the assets directory and
    the captured file name; the text before is kept and the text after is
    transformed in the same way.  The join of ["/app/"], ["assets"] and
    ["my_crate_bg.wasm"] is ["/app/assets/my_crate_bg.wasm"]. *)
Theorem C2_rewritten_reference :
  (∀ (b a pre s : jsstring) g (rest : jsstring),
     (∀ i, (i < length pre)%nat → match_here url_regex (drop i (pre ++ s)) None = None) →
     match_here url_regex s None = Some (g, rest) →
     ∃ file mid,
       g = Some file
       ∧ s = str "input = new URL('" ++ file ++ str "'" ++ mid ++ str ";" ++ rest
       ∧ transform b a (pre ++ s)
         = pre ++ str "input = " ++ [CHAR_DOUBLE_QUOTE] ++ path.join [b; a; file]
               ++ [CHAR_DOUBLE_QUOTE] ++ transform b a rest)
  ∧ path.join [str "/app/"; str "assets"; str "my_crate_bg.wasm"]
    = str "/app/assets/my_crate_bg.wasm"
  ∧ transform (str "/app/") (str "assets")
      (str "input = new URL('my_crate_bg.wasm', import.meta.url);")
    = str "input = " ++ [CHAR_DOUBLE_QUOTE] ++ str "/app/assets/my_crate_bg.wasm"
        ++ [CHAR_DOUBLE_QUOTE].
Proof.
  split; [|split; vm_compute; reflexivity].
  intros b a pre s g rest Hpre Hm.
  destruct (match_here_url_regex _ _ _ Hm) as (file & mid & -> & Hs & _).
  exists file, mid. split; [done|]. split; [done|].
  unfold transform. rewrite replace_skip by done. f_equal.
  rewrite (replace_match _ _ _ _ _ Hm).
  - unfold rewrite_url. cbn [default from_option id]. by rewrite <-!app_assoc.
  - rewrite Hs, !length_app. simpl. lia.
Qed.

Lemma C2_rewritten_reference_witness :
  (∀ i, (i < length (str "    "))%nat →
        match_here url_regex
          (drop i (str "    " ++ str "input = new URL('my_crate_bg.wasm', import.meta.url);" ++ LF))
          None = None)
  ∧ match_here url_regex (str "input = new URL('my_crate_bg.wasm', import.meta.url);" ++ LF) None
    = Some (Some (str "my_crate_bg.wasm"), LF)
  ∧ ∃ file mid,
      Some (str "my_crate_bg.wasm") = Some file
      ∧ str "input = new URL('my_crate_bg.wasm', import.meta.url);" ++ LF
        = str "input = new URL('" ++ file ++ str "'" ++ mid ++ str ";" ++ LF
      ∧ transform (str "/app/") (str "assets")
          (str "    " ++ str "input = new URL('my_crate_bg.wasm', import.meta.url);" ++ LF)
        = str "    " ++ str "input = " ++ [CHAR_DOUBLE_QUOTE]
            ++ path.join [str "/app/"; str "assets"; file]
            ++ [CHAR_DOUBLE_QUOTE] ++ transform (str "/app/") (str "assets") LF.
Proof.
  assert (∀ i, (i < length (str "    "))%nat →
               match_here url_regex
                 (drop i (str "    "
                          ++ str "input = new URL('my_crate_bg.wasm', import.meta.url);" ++ LF))
                 None = None) as Hpre.
  { intros i Hi. do 4 (destruct i as [|i]; [vm_compute; reflexivity|]).
    vm_compute in Hi. lia. }
  assert (match_here url_regex
            (str "input = new URL('my_crate_bg.wasm', import.meta.url);" ++ LF) None
          = Some (Some (str "my_crate_bg.wasm"), LF)) as Hm by (vm_compute; reflexivity).
  split; [exact Hpre|]. split; [exact Hm|].
  exact (proj1 C2_rewritten_reference (str "/app/") (str "assets") (str "    ") _ _ _ Hpre Hm).
Defined.




(** ** [buildEnd] *)

Lemma buildEnd_loop (m : list (jsstring * CrateType)) (w : world) :
  (∀ kv, kv ∈ m → is_Some (files w !! path.resolve (cwd w) (crate_path kv.2))) →
  for_each m (λ '(fileName, crate),
    source ← fs.readFileSync (crate_path crate);
    this_emitFile (Asset (str "assets/" ++ fileName) source)) w
  = (Ok (), World (cwd w) (files w) (dirs w) (installed w) (console w)
              (emitted w ++ (asset_of w <$> m))).
Proof.
  revert w. induction m as [|[k e] m IH]; intros w Hm.
  - simpl. rewrite app_nil_r. by destruct w.
  - destruct (Hm (k, e)) as [src Hsrc]; [left|]. simpl in Hsrc.
    cbn [for_each]. unfold mbind at 1. unfold M_bind.
    unfold mbind at 1. unfold M_bind, fs.readFileSync. rewrite Hsrc.
    unfold this_emitFile. rewrite IH.
    + cbn [cwd files dirs installed console emitted fmap list_fmap].
      unfold asset_of at 2. cbn [fst snd cwd files]. rewrite Hsrc.
      by rewrite <-app_assoc.
    + intros kv Hkv. cbn [cwd files]. apply Hm. by right.
Qed.

(** X10: At finalize time one asset is registered per entry of the mapping, in
    the order of the mapping, named [assets/<binaryFileName>] and holding the
    bytes of the binary. *)
Lemma buildEnd_emits (pl : plugin) (w : world) :
  (∀ kv, kv ∈ wasmMap pl → is_Some (files w !! path.resolve (cwd w) (crate_path kv.2))) →
  buildEnd pl w
  = (Ok (), World (cwd w) (files w) (dirs w) (installed w) (console w)
              (emitted w ++ (asset_of w <$> wasmMap pl))).
Proof. apply buildEnd_loop. Qed.

(** C3 on the demo project with [base = "/"] and [build.assetsDir =
    "static"]: [buildStart] writes the reference [/static/my_crate_bg.wasm]
    into the loader script, [buildEnd] registers the binary under the name
    [assets/my_crate_bg.wasm], which the bundler serves at
    [/assets/my_crate_bg.wasm]: the loader asks for a path where no asset
    is. *)
Theorem C3_emitted_name_ignores_assetsDir :
  ∃ w1 w2,
    buildStart (str "/") (str "static") demo_plugin demo_world = (Ok (), w1)
    ∧ files w1 !! str "/proj/node_modules/my-crate/my_crate.js"
      = Some (demo_loader_rewritten (str "/static/my_crate_bg.wasm"))
    ∧ buildEnd demo_plugin w1 = (Ok (), w2)
    ∧ emitted w2
      = [Asset (str "assets/my_crate_bg.wasm") demo_wasm;
         Asset (str "assets/test_npm_crate_bg.wasm") demo_wasm]
    ∧ path.join [str "/"; str "assets/my_crate_bg.wasm"] = str "/assets/my_crate_bg.wasm"
    ∧ str "/assets/my_crate_bg.wasm" ≠ str "/static/my_crate_bg.wasm".
Proof.
  do 2 eexists. split; [vm_compute; reflexivity|].
  split; [vm_compute; reflexivity|].
  split; [vm_compute; reflexivity|].
  split; [vm_compute; reflexivity|].
  split; [vm_compute; reflexivity|].
  intros H. vm_compute in H. discriminate H.
Qed.

(** * Further properties of the plugin *)

(** ** Derived names *)

Lemma take_while_Forall (P : char → bool) (s : jsstring) :
  Forall (λ c, P c = true) (take_while P s).
Proof.
  induction s as [|c s IH]; simpl; [constructor|].
  destruct (P c) eqn:Hc; by constructor.
Qed.

Lemma take_while_app_stop (P : char → bool) (l r : jsstring) (x : char) :
  Forall (λ c, P c = true) l → P x = false → take_while P (l ++ x :: r) = l.
Proof.
  intros Hl Hx. induction Hl as [|c l Hc Hl IH]; simpl.
  - by rewrite Hx.
  - by rewrite Hc, IH.
Qed.

Lemma take_while_all (P : char → bool) (l : jsstring) :
  Forall (λ c, P c = true) l → take_while P l = l.
Proof. induction 1 as [|c l Hc Hl IH]; simpl; [done|]. by rewrite Hc, IH. Qed.

Lemma last_segment_no_separator (s : jsstring) : CHAR_FORWARD_SLASH ∉ last_segment s.
Proof.
  unfold last_segment. rewrite elem_of_reverse. intros Hin.
  pose proof (take_while_Forall (λ c, negb (path.isPosixPathSeparator c))
                (drop_while path.isPosixPathSeparator (reverse s))) as Hall.
  rewrite Forall_forall in Hall. apply Hall in Hin. done.
Qed.

Lemma last_segment_trailing_separator (s : jsstring) :
  last_segment (s ++ [CHAR_FORWARD_SLASH]) = last_segment s.
Proof. unfold last_segment. by rewrite reverse_snoc. Qed.

Lemma last_segment_after_separator (d seg : jsstring) :
  seg ≠ [] → CHAR_FORWARD_SLASH ∉ seg →
  last_segment (d ++ CHAR_FORWARD_SLASH :: seg) = seg.
Proof.
  intros Hne Hseg. unfold last_segment.
  rewrite reverse_app, reverse_cons, <-app_assoc. simpl.
  assert (Forall (λ c, negb (path.isPosixPathSeparator c) = true) (reverse seg)) as Hall.
  { apply Forall_reverse, Forall_forall. intros c Hc. unfold path.isPosixPathSeparator.
    destruct (N.eqb_spec c CHAR_FORWARD_SLASH) as [->|]; done. }
  assert (drop_while path.isPosixPathSeparator
            (reverse seg ++ CHAR_FORWARD_SLASH :: reverse d)
          = reverse seg ++ CHAR_FORWARD_SLASH :: reverse d) as ->.
  { destruct (reverse seg) as [|c l] eqn:E.
    - apply (f_equal reverse) in E. by rewrite reverse_involutive in E.
    - apply Forall_cons in Hall as [Hc _]. simpl.
      by destruct (path.isPosixPathSeparator c). }
  rewrite take_while_app_stop by done. apply reverse_involutive.
Qed.

Lemma endsWith_app (x p : jsstring) : endsWith (x ++ p) p = true.
Proof.
  unfold endsWith. rewrite length_app.
  replace (length x + length p - length p)%nat with (length x) by lia.
  rewrite drop_app_length, bool_decide_true by done. simpl.
  apply Nat.leb_le. lia.
Qed.

Lemma hyphen_to_underscore_not_hyphen (c : char) : hyphen_to_underscore c ≠ CHAR_HYPHEN.
Proof.
  unfold hyphen_to_underscore. destruct (N.eqb_spec c CHAR_HYPHEN); [done|done].
Qed.

Lemma hyphens_to_underscores_no_hyphen (s : jsstring) :
  CHAR_HYPHEN ∉ hyphens_to_underscores s.
Proof.
  rewrite hyphens_to_underscores_map. intros (c & Hc & _)%list_elem_of_fmap.
  by apply (hyphen_to_underscore_not_hyphen c).
Qed.

(** X1: The loader script's name and the binary's name are made with
    [replace(/\-/g, '_')]: it keeps the length, changes nothing but hyphens,
    leaves no hyphen behind and so does nothing when applied again. *)
Theorem hyphens_to_underscores_shape (s : jsstring) :
  length (hyphens_to_underscores s) = length s
  ∧ (∀ i, hyphens_to_underscores s !! i = hyphen_to_underscore <$> s !! i)
  ∧ (CHAR_HYPHEN ∉ hyphens_to_underscores s)
  ∧ hyphens_to_underscores (hyphens_to_underscores s) = hyphens_to_underscores s.
Proof.
  rewrite !hyphens_to_underscores_map. split; [apply length_fmap|].
  split; [intros i; apply list_lookup_fmap|]. split.
  - intros (c & Hc & _)%list_elem_of_fmap.
    by apply (hyphen_to_underscore_not_hyphen c).
  - rewrite <-list_fmap_compose. apply list_fmap_ext. intros _ c _. simpl.
    unfold hyphen_to_underscore at 1.
    destruct (N.eqb_spec (hyphen_to_underscore c) CHAR_HYPHEN) as [Heq|]; [|done].
    by apply hyphen_to_underscore_not_hyphen in Heq.
Qed.

Lemma wasmFilename_no_separator (s : jsstring) : CHAR_FORWARD_SLASH ∉ wasmFilename s.
Proof.
  unfold wasmFilename. rewrite hyphens_to_underscores_map, basename_last_segment.
  rewrite elem_of_app. intros [(c & Hc & Hin)%list_elem_of_fmap|Hin].
  - unfold hyphen_to_underscore in Hc.
    destruct (N.eqb_spec c CHAR_HYPHEN); [done|]. subst c.
    by apply last_segment_no_separator in Hin.
  - revert Hin. apply (bool_decide_unpack (CHAR_FORWARD_SLASH ∉ str "_bg.wasm")).
    vm_compute. exact I.
Qed.

Lemma wasmFilename_nonempty (s : jsstring) : wasmFilename s ≠ [].
Proof. unfold wasmFilename. by intros [_ ?]%app_eq_nil. Qed.

Lemma wasmFilename_endsWith (s : jsstring) : endsWith (wasmFilename s) (str ".wasm") = true.
Proof.
  unfold wasmFilename.
  change (str "_bg.wasm") with (str "_bg" ++ str ".wasm").
  rewrite app_assoc. apply endsWith_app.
Qed.

(** X2: The derived file name is one path segment: it holds no separator and no
    hyphen, ends in [.wasm], and is the base name of every path that ends
    in it, whatever the directory part. *)
Theorem wasmFilename_single_segment (s d : jsstring) :
  (CHAR_FORWARD_SLASH ∉ wasmFilename s)
  ∧ (CHAR_HYPHEN ∉ wasmFilename s)
  ∧ endsWith (wasmFilename s) (str ".wasm") = true
  ∧ path.basename (wasmFilename s) = wasmFilename s
  ∧ path.basename (d ++ str "/" ++ wasmFilename s) = wasmFilename s.
Proof.
  split; [apply wasmFilename_no_separator|]. split.
  - unfold wasmFilename. rewrite elem_of_app. intros [Hin|Hin].
    + by apply hyphens_to_underscores_no_hyphen in Hin.
    + revert Hin. apply (bool_decide_unpack (CHAR_HYPHEN ∉ str "_bg.wasm")).
      vm_compute. exact I.
  - split; [apply wasmFilename_endsWith|]. split.
    + apply basename_bare, wasmFilename_no_separator.
    + rewrite basename_last_segment. apply last_segment_after_separator.
      * apply wasmFilename_nonempty.
      * apply wasmFilename_no_separator.
Qed.

(** X3: Only the last segment of a crate path counts for the derived name: the
    directory part and a trailing separator are ignored, so [./my-crate],
    [../x/my-crate] and [my-crate/] derive the same file name. *)
Theorem wasmFilename_last_segment_only (d seg : jsstring) :
  seg ≠ [] → CHAR_FORWARD_SLASH ∉ seg →
  wasmFilename (d ++ str "/" ++ seg) = wasmFilename seg
  ∧ wasmFilename (seg ++ str "/") = wasmFilename seg
  ∧ wasmFilename (d ++ str "/" ++ seg ++ str "/") = wasmFilename seg.
Proof.
  intros Hne Hseg. unfold wasmFilename. rewrite !basename_last_segment.
  assert (last_segment seg = seg) as Hbare.
  { rewrite <-basename_last_segment. by apply basename_bare. }
  rewrite Hbare. change (str "/") with [CHAR_FORWARD_SLASH]. split; [|split].
  - cbn [app]. by rewrite (last_segment_after_separator d seg).
  - by rewrite last_segment_trailing_separator, Hbare.
  - rewrite (app_assoc d), (app_assoc _ seg), last_segment_trailing_separator.
    rewrite <-app_assoc. cbn [app]. by rewrite (last_segment_after_separator d seg).
Qed.

Lemma wasmFilename_last_segment_only_witness :
  str "my-crate" ≠ []
  ∧ (CHAR_FORWARD_SLASH ∉ str "my-crate")
  ∧ wasmFilename (str "../x" ++ str "/" ++ str "my-crate") = wasmFilename (str "my-crate")
  ∧ wasmFilename (str "my-crate" ++ str "/") = wasmFilename (str "my-crate")
  ∧ wasmFilename (str "../x" ++ str "/" ++ str "my-crate" ++ str "/")
    = wasmFilename (str "my-crate").
Proof.
  assert (str "my-crate" ≠ []) as H1 by done.
  assert (CHAR_FORWARD_SLASH ∉ str "my-crate") as H2.
  { apply (bool_decide_unpack _). vm_compute. reflexivity. }
  split; [exact H1|]. split; [exact H2|].
  exact (wasmFilename_last_segment_only (str "../x") (str "my-crate") H1 H2).
Defined.

(** X4: [resolveId] intercepts the name of a declared crate whatever directory
    the crate path goes through. *)
Theorem resolveId_declared_crate (pl : plugin) (d name : jsstring) :
  name ≠ [] → CHAR_FORWARD_SLASH ∉ name →
  d ++ str "/" ++ name ∈ cratePaths pl →
  resolveId pl name = Some (prefix ++ name).
Proof.
  intros Hne Hname Hin. unfold resolveId. apply resolveId_loop_Some.
  exists (d ++ str "/" ++ name). split; [done|].
  rewrite basename_last_segment. by apply last_segment_after_separator.
Qed.

Lemma resolveId_declared_crate_witness :
  str "my-crate" ≠ []
  ∧ (CHAR_FORWARD_SLASH ∉ str "my-crate")
  ∧ (str "." ++ str "/" ++ str "my-crate" ∈ cratePaths demo_plugin)
  ∧ resolveId demo_plugin (str "my-crate") = Some (prefix ++ str "my-crate").
Proof.
  assert (str "my-crate" ≠ []) as H1 by done.
  assert (CHAR_FORWARD_SLASH ∉ str "my-crate") as H2.
  { apply (bool_decide_unpack _). vm_compute. reflexivity. }
  assert (str "." ++ str "/" ++ str "my-crate" ∈ cratePaths demo_plugin) as H3 by left.
  split; [exact H1|]. split; [exact H2|]. split; [exact H3|].
  exact (resolveId_declared_crate demo_plugin (str ".") (str "my-crate") H1 H2 H3).
Defined.

(** ** The mapping and the declared sources *)

Lemma get_is_Some {V} (m : list (jsstring * V)) (k : jsstring) :
  is_Some (JsMap.get m k) ↔ k ∈ JsMap.keys m.
Proof.
  unfold JsMap.keys. induction m as [|[k' v'] m IH]; simpl.
  - rewrite elem_of_nil. split; [by intros [? ?]|done].
  - rewrite elem_of_cons. destruct (decide (k' = k)) as [->|Hne].
    + split; [by left|by eexists].
    + rewrite IH. split; [by right|]. by intros [->|].
Qed.

Lemma add_crates_keys (l : list jsstring) (m : list (jsstring * CrateType)) (k : jsstring) :
  k ∈ JsMap.keys (add_crates l m)
  ↔ k ∈ JsMap.keys m ∨ ∃ s, s ∈ l ∧ wasmFilename s = k.
Proof.
  revert m. induction l as [|c l IH]; intros m; simpl.
  - split; [by left|]. intros [?|(s & Hs & _)]; [done|]. inversion Hs.
  - rewrite IH, keys_set_elem. split.
    + intros [[->|Hk]|(s & Hs & Hk)].
      * right. exists c. split; [left|done].
      * by left.
      * right. exists s. split; [by right|done].
    + intros [Hk|(s & [->|Hs]%elem_of_cons & Hk)].
      * left. by right.
      * left. by left.
      * right. by exists s.
Qed.

Lemma add_modules_keys (l : list jsstring) (m m' : list (jsstring * CrateType))
    (w w' : world) (k : jsstring) :
  add_modules l m w = (Ok m', w') →
  k ∈ JsMap.keys m' ↔ k ∈ JsMap.keys m ∨ ∃ s, s ∈ l ∧ wasmFilename s = k.
Proof.
  revert m. induction l as [|c l IH]; intros m.
  - intros [= -> _]. split; [by left|]. intros [?|(s & Hs & _)]; [done|]. inversion Hs.
  - intros (entry & _ & Hl)%add_modules_cons. rewrite (IH _ Hl), keys_set_elem. split.
    + intros [[->|Hk]|(s & Hs & Hk)].
      * right. exists c. split; [left|done].
      * by left.
      * right. exists s. split; [by right|done].
    + intros [Hk|(s & [->|Hs]%elem_of_cons & Hk)].
      * left. by right.
      * left. by left.
      * right. by exists s.
Qed.

Lemma add_modules_resolvable (l : list jsstring) (m : list (jsstring * CrateType)) (w : world) :
  (∀ s, s ∈ l → is_Some (installed w !! s)) →
  ∃ m', add_modules l m w = (Ok m', w).
Proof.
  revert m. induction l as [|c l IH]; intros m Hl.
  - by exists m.
  - destruct (Hl c) as [entry He]; [left|].
    destruct (IH (JsMap.set m (wasmFilename c)
                    (Crate (path.join [path.dirname entry; wasmFilename c]) true)))
      as [m' Hm']; [intros s Hs; apply Hl; by right|].
    exists m'. simpl. unfold mbind, M_bind, require_resolve. by rewrite He.
Qed.

Lemma add_modules_unresolvable (l1 l2 : list jsstring) (s : jsstring)
    (m : list (jsstring * CrateType)) (w : world) :
  (∀ s', s' ∈ l1 → is_Some (installed w !! s')) →
  installed w !! s = None →
  add_modules (l1 ++ s :: l2) m w = (Err (ModuleNotFound s), w).
Proof.
  revert m. induction l1 as [|c l1 IH]; intros m Hl1 Hs; simpl.
  - unfold mbind, M_bind, require_resolve. by rewrite Hs.
  - destruct (Hl1 c) as [entry He]; [left|].
    unfold mbind, M_bind, require_resolve. rewrite He.
    apply IH; [|done]. intros s' Hs'. apply Hl1. by right.
Qed.

Lemma wasmMap_has_entry (crates : str_or_list) (moduleCrates : option str_or_list)
    (w w' : world) (pl : plugin) (k : jsstring) :
  vitePluginWasmPack crates moduleCrates w = (Ok pl, w') →
  (∃ s, s ∈ cratePaths_of crates ++ modulePaths_of moduleCrates ∧ wasmFilename s = k) →
  is_Some (JsMap.get (wasmMap pl) k).
Proof.
  intros (Hc & Hm & Hadd)%vitePluginWasmPack_Ok. rewrite Hc, Hm in Hadd.
  rewrite get_is_Some, (add_modules_keys _ _ _ _ _ _ Hadd), add_crates_keys.
  intros (s & [Hs|Hs]%elem_of_app & Hk); [left; right|right]; by exists s.
Qed.

(** X5: The mapping of a plugin that could be created covers the declared
    sources and nothing else: a file name has an entry exactly when it is
    the derived name of a declared local crate or installed package. *)
Theorem wasmMap_covers_declared_sources (crates : str_or_list)
    (moduleCrates : option str_or_list) (w w' : world) (pl : plugin) (k : jsstring) :
  vitePluginWasmPack crates moduleCrates w = (Ok pl, w') →
  is_Some (JsMap.get (wasmMap pl) k)
  ↔ ∃ s, s ∈ cratePaths_of crates ++ modulePaths_of moduleCrates ∧ wasmFilename s = k.
Proof.
  intros (Hc & Hm & Hadd)%vitePluginWasmPack_Ok. rewrite Hc, Hm in Hadd.
  rewrite get_is_Some, (add_modules_keys _ _ _ _ _ _ Hadd), add_crates_keys.
  unfold JsMap.keys. simpl. rewrite elem_of_nil. split.
  - intros [[[]|(s & Hs & Hk)]|(s & Hs & Hk)]; exists s; rewrite elem_of_app; auto.
  - intros (s & [Hs|Hs]%elem_of_app & Hk); [left; right|right]; by exists s.
Qed.

Lemma wasmMap_covers_declared_sources_witness :
  vitePluginWasmPack (One (str "./my-crate")) (Some (One (str "test-npm-crate"))) demo_world
  = (Ok demo_plugin, demo_world)
  ∧ (is_Some (JsMap.get (wasmMap demo_plugin) (str "test_npm_crate_bg.wasm"))
     ↔ ∃ s, s ∈ cratePaths_of (One (str "./my-crate"))
                ++ modulePaths_of (Some (One (str "test-npm-crate")))
            ∧ wasmFilename s = str "test_npm_crate_bg.wasm").
Proof.
  assert (vitePluginWasmPack (One (str "./my-crate")) (Some (One (str "test-npm-crate")))
            demo_world = (Ok demo_plugin, demo_world)) as H by (vm_compute; reflexivity).
  split; [exact H|].
  exact (wasmMap_covers_declared_sources _ _ _ _ _ (str "test_npm_crate_bg.wasm") H).
Defined.

(** X6: Creating the plugin resolves every declared installed package, and only
    reads the world: it succeeds exactly when all of them resolve. *)
Theorem plugin_creation_succeeds_iff (crates : str_or_list)
    (moduleCrates : option str_or_list) (w : world) :
  (∃ pl, vitePluginWasmPack crates moduleCrates w = (Ok pl, w))
  ↔ ∀ s, s ∈ modulePaths_of moduleCrates → is_Some (installed w !! s).
Proof.
  split.
  - intros [pl (_ & Hm & Hadd)%vitePluginWasmPack_Ok] s Hs. rewrite Hm in Hadd.
    apply list_elem_of_split in Hs as (l1 & l2 & Hl). rewrite Hl in Hadd.
    apply add_modules_split in Hadd as (entry & _ & He & _). by exists entry.
  - intros Hall.
    destruct (add_modules_resolvable _ (add_crates (cratePaths_of crates) []) w Hall)
      as [m' Hm'].
    eexists. unfold vitePluginWasmPack, mbind, M_bind, mret, M_ret. by rewrite Hm'.
Qed.

(** X7: When a declared installed package does not resolve, creating the plugin
    throws for the first such package and leaves the world as it was. *)
Theorem plugin_creation_first_unresolvable (crates : str_or_list)
    (moduleCrates : option str_or_list) (w : world) (l1 l2 : list jsstring) (s : jsstring) :
  modulePaths_of moduleCrates = l1 ++ s :: l2 →
  (∀ s', s' ∈ l1 → is_Some (installed w !! s')) →
  installed w !! s = None →
  vitePluginWasmPack crates moduleCrates w = (Err (ModuleNotFound s), w).
Proof.
  intros Hl Hl1 Hs. unfold vitePluginWasmPack, mbind, M_bind. rewrite Hl.
  by rewrite add_modules_unresolvable.
Qed.

Lemma plugin_creation_first_unresolvable_witness :
  modulePaths_of (Some (Many [str "test-npm-crate"; str "absent"; str "other"]))
  = [str "test-npm-crate"] ++ str "absent" :: [str "other"]
  ∧ (∀ s', s' ∈ [str "test-npm-crate"] → is_Some (installed demo_world !! s'))
  ∧ installed demo_world !! str "absent" = None
  ∧ vitePluginWasmPack (One (str "./my-crate"))
      (Some (Many [str "test-npm-crate"; str "absent"; str "other"])) demo_world
    = (Err (ModuleNotFound (str "absent")), demo_world).
Proof.
  assert (∀ s', s' ∈ [str "test-npm-crate"] → is_Some (installed demo_world !! s')) as H1.
  { intros s' ->%list_elem_of_singleton. eexists. vm_compute. reflexivity. }
  assert (installed demo_world !! str "absent" = None) as H2 by (vm_compute; reflexivity).
  split; [reflexivity|]. split; [exact H1|]. split; [exact H2|].
  exact (plugin_creation_first_unresolvable (One (str "./my-crate"))
           (Some (Many [str "test-npm-crate"; str "absent"; str "other"])) demo_world
           [str "test-npm-crate"] [str "other"] (str "absent") eq_refl H1 H2).
Defined.

(** ** The development server of a created plugin *)

Lemma middleware_serves (pl : plugin) (w : world) (u : jsstring) (res : response)
    (entry : CrateType) (bytes : jsstring) :
  JsMap.get (wasmMap pl) (path.basename u) = Some entry →
  endsWith (path.basename u) (str ".wasm") = true →
  files w !! path.resolve (cwd w) (crate_path entry) = Some bytes →
  middleware pl w (Request (Some u)) res
  = (Response (Some 200)
       (<[str "Content-Type" := str "application/wasm"]>
          (<[str "Cache-Control" := str "no-cache, no-store, must-revalidate"]>
             (headers res)))
       (Some bytes), false).
Proof.
  intros Hget Hext Hfile. unfold middleware. cbn [url].
  rewrite Hext, Hget. unfold pipe_file. by rewrite Hfile.
Qed.

Lemma wasmMap_keys_endWith (crates : str_or_list) (moduleCrates : option str_or_list)
    (w w' : world) (pl : plugin) (k : jsstring) :
  vitePluginWasmPack crates moduleCrates w = (Ok pl, w') →
  is_Some (JsMap.get (wasmMap pl) k) → endsWith k (str ".wasm") = true.
Proof.
  intros (Hc & Hm & Hadd)%vitePluginWasmPack_Ok. rewrite Hc, Hm in Hadd.
  rewrite get_is_Some, (add_modules_keys _ _ _ _ _ _ Hadd), add_crates_keys.
  intros [[[]%elem_of_nil|(s & _ & <-)]|(s & _ & <-)]; apply wasmFilename_endsWith.
Qed.

(** X8: Every declared source of a created plugin is served in development under
    any directory: the request for [d/<derived name>] finds the entry of the
    mapping and, the binary being on disk at the recorded path, is answered
    with status 200, the two headers and the bytes; [next] is not called. *)
Theorem dev_server_serves_declared_source (crates : str_or_list)
    (moduleCrates : option str_or_list) (w w' : world) (pl : plugin) (s : jsstring) :
  vitePluginWasmPack crates moduleCrates w = (Ok pl, w') →
  s ∈ cratePaths_of crates ++ modulePaths_of moduleCrates →
  ∃ entry,
    JsMap.get (wasmMap pl) (wasmFilename s) = Some entry
    ∧ ∀ (d : jsstring) (w2 : world) (res : response) (bytes : jsstring),
        files w2 !! path.resolve (cwd w2) (crate_path entry) = Some bytes →
        middleware pl w2 (Request (Some (d ++ str "/" ++ wasmFilename s))) res
        = (Response (Some 200)
             (<[str "Content-Type" := str "application/wasm"]>
                (<[str "Cache-Control" := str "no-cache, no-store, must-revalidate"]>
                   (headers res)))
             (Some bytes), false).
Proof.
  intros Hbuild Hs.
  assert (is_Some (JsMap.get (wasmMap pl) (wasmFilename s))) as [entry Hentry].
  { apply (wasmMap_has_entry crates moduleCrates w w' pl); [done|].
    by exists s. }
  exists entry. split; [done|]. intros d w2 res bytes Hfile.
  assert (path.basename (d ++ str "/" ++ wasmFilename s) = wasmFilename s) as Hbase.
  { rewrite basename_last_segment. apply last_segment_after_separator.
    - apply wasmFilename_nonempty.
    - apply wasmFilename_no_separator. }
  apply (middleware_serves pl w2 _ res entry bytes); [by rewrite Hbase| |done].
  rewrite Hbase. apply wasmFilename_endsWith.
Qed.

Lemma dev_server_serves_declared_source_witness :
  vitePluginWasmPack (One (str "./my-crate")) (Some (One (str "test-npm-crate"))) demo_world
  = (Ok demo_plugin, demo_world)
  ∧ (str "./my-crate" ∈ cratePaths_of (One (str "./my-crate"))
                        ++ modulePaths_of (Some (One (str "test-npm-crate"))))
  ∧ ∃ entry,
      JsMap.get (wasmMap demo_plugin) (wasmFilename (str "./my-crate")) = Some entry
      ∧ ∀ (d : jsstring) (w2 : world) (res : response) (bytes : jsstring),
          files w2 !! path.resolve (cwd w2) (crate_path entry) = Some bytes →
          middleware demo_plugin w2
            (Request (Some (d ++ str "/" ++ wasmFilename (str "./my-crate")))) res
          = (Response (Some 200)
               (<[str "Content-Type" := str "application/wasm"]>
                  (<[str "Cache-Control" := str "no-cache, no-store, must-revalidate"]>
                     (headers res)))
               (Some bytes), false).
Proof.
  assert (vitePluginWasmPack (One (str "./my-crate")) (Some (One (str "test-npm-crate")))
            demo_world = (Ok demo_plugin, demo_world)) as H by (vm_compute; reflexivity).
  assert (str "./my-crate" ∈ cratePaths_of (One (str "./my-crate"))
                             ++ modulePaths_of (Some (One (str "test-npm-crate")))) as H2
    by left.
  split; [exact H|]. split; [exact H2|].
  exact (dev_server_serves_declared_source _ _ _ _ _ _ H H2).
Defined.

(** X9: For a created plugin the test on the extension decides nothing, every
    key of the mapping ending in [.wasm]: a request with a string URL is
    passed to [next] exactly when its base name has no entry. *)
Theorem middleware_next_iff_no_entry (crates : str_or_list)
    (moduleCrates : option str_or_list) (w w' w2 : world) (pl : plugin)
    (u : jsstring) (res : response) :
  vitePluginWasmPack crates moduleCrates w = (Ok pl, w') →
  (middleware pl w2 (Request (Some u)) res).2 = true
  ↔ JsMap.get (wasmMap pl) (path.basename u) = None.
Proof.
  intros Hbuild. unfold middleware. cbn [url].
  destruct (JsMap.get (wasmMap pl) (path.basename u)) as [entry|] eqn:Hget.
  - rewrite (wasmMap_keys_endWith _ _ _ _ _ _ Hbuild) by by rewrite Hget.
    split; done.
  - by destruct (endsWith _ _).
Qed.

Lemma middleware_next_iff_no_entry_witness :
  vitePluginWasmPack (One (str "./my-crate")) (Some (One (str "test-npm-crate"))) demo_world
  = (Ok demo_plugin, demo_world)
  ∧ ((middleware demo_plugin demo_world (Request (Some (str "/src/main.ts")))
        empty_response).2 = true
     ↔ JsMap.get (wasmMap demo_plugin) (path.basename (str "/src/main.ts")) = None).
Proof.
  assert (vitePluginWasmPack (One (str "./my-crate")) (Some (One (str "test-npm-crate")))
            demo_world = (Ok demo_plugin, demo_world)) as H by (vm_compute; reflexivity).
  split; [exact H|].
  exact (middleware_next_iff_no_entry _ _ _ _ demo_world _ (str "/src/main.ts")
           empty_response H).
Defined.

(** ** [buildEnd] *)

Lemma buildEnd_emits_witness :
  (∀ kv, kv ∈ wasmMap demo_plugin →
         is_Some (files demo_world !! path.resolve (cwd demo_world) (crate_path kv.2)))
  ∧ buildEnd demo_plugin demo_world
    = (Ok (), World (cwd demo_world) (files demo_world) (dirs demo_world)
                (installed demo_world) (console demo_world)
                (emitted demo_world ++ (asset_of demo_world <$> wasmMap demo_plugin))).
Proof.
  assert (∀ kv, kv ∈ wasmMap demo_plugin →
            is_Some (files demo_world !! path.resolve (cwd demo_world) (crate_path kv.2)))
    as H.
  { intros kv Hkv. unfold demo_plugin, wasmMap in Hkv.
    apply elem_of_cons in Hkv as [->|Hkv]; [eexists; vm_compute; reflexivity|].
    apply list_elem_of_singleton in Hkv as ->. eexists. vm_compute. reflexivity. }
  split; [exact H|]. exact (buildEnd_emits demo_plugin demo_world H).
Defined.

(** X11: [buildEnd] stops at the first entry whose binary cannot be read: the
    read error comes out, the assets of the entries before it have been
    registered, those after it have not. *)
Theorem buildEnd_stops_at_missing_binary (pl : plugin) (w : world)
    (pre post : list (jsstring * CrateType)) (k : jsstring) (e : CrateType) :
  wasmMap pl = pre ++ (k, e) :: post →
  (∀ kv, kv ∈ pre → is_Some (files w !! path.resolve (cwd w) (crate_path kv.2))) →
  files w !! path.resolve (cwd w) (crate_path e) = None →
  buildEnd pl w
  = (Err (ENOENT (crate_path e)),
     World (cwd w) (files w) (dirs w) (installed w) (console w)
       (emitted w ++ (asset_of w <$> pre))).
Proof.
  intros Hm Hpre He. unfold buildEnd. rewrite Hm, for_each_app, buildEnd_loop by done.
  cbn [for_each]. unfold mbind at 1. unfold M_bind.
  unfold mbind at 1. unfold M_bind, fs.readFileSync. cbn [cwd files]. by rewrite He.
Qed.

Lemma buildEnd_stops_at_missing_binary_witness :
  wasmMap demo_plugin_two
  = [(str "my_crate_bg.wasm", Crate (str "my-crate/pkg/my_crate_bg.wasm") false)]
    ++ (str "fresh_crate_bg.wasm", Crate (str "fresh-crate/pkg/fresh_crate_bg.wasm") false)
    :: []
  ∧ (∀ kv, kv ∈ [(str "my_crate_bg.wasm", Crate (str "my-crate/pkg/my_crate_bg.wasm") false)] →
           is_Some (files demo_world !! path.resolve (cwd demo_world) (crate_path kv.2)))
  ∧ files demo_world
      !! path.resolve (cwd demo_world)
           (crate_path (Crate (str "fresh-crate/pkg/fresh_crate_bg.wasm") false)) = None
  ∧ buildEnd demo_plugin_two demo_world
    = (Err (ENOENT (str "fresh-crate/pkg/fresh_crate_bg.wasm")),
       World (cwd demo_world) (files demo_world) (dirs demo_world) (installed demo_world)
         (console demo_world)
         (emitted demo_world
          ++ (asset_of demo_world
                <$> [(str "my_crate_bg.wasm",
                      Crate (str "my-crate/pkg/my_crate_bg.wasm") false)]))).
Proof.
  assert (∀ kv, kv ∈ [(str "my_crate_bg.wasm",
                       Crate (str "my-crate/pkg/my_crate_bg.wasm") false)] →
            is_Some (files demo_world !! path.resolve (cwd demo_world) (crate_path kv.2)))
    as H1.
  { intros kv ->%list_elem_of_singleton. eexists. vm_compute. reflexivity. }
  assert (files demo_world
            !! path.resolve (cwd demo_world)
                 (crate_path (Crate (str "fresh-crate/pkg/fresh_crate_bg.wasm") false))
          = None) as H2 by (vm_compute; reflexivity).
  split; [reflexivity|]. split; [exact H1|]. split; [exact H2|].
  exact (buildEnd_stops_at_missing_binary demo_plugin_two demo_world
           [(str "my_crate_bg.wasm", Crate (str "my-crate/pkg/my_crate_bg.wasm") false)]
           [] (str "fresh_crate_bg.wasm")
           (Crate (str "fresh-crate/pkg/fresh_crate_bg.wasm") false) eq_refl H1 H2).
Defined.

Lemma asset_of_frame (w : world) (c : list jsstring) (em : list asset) :
  asset_of (World (cwd w) (files w) (dirs w) (installed w) c em) = asset_of w.
Proof. done. Qed.

(** X12: Whether it succeeds or fails, [buildEnd] changes nothing but the list of
    registered assets, and what it adds are the assets of the first [n]
    entries of the mapping, in the order of the mapping. *)
Theorem buildEnd_only_registers_assets (pl : plugin) (w : world) :
  ∃ n, (buildEnd pl w).2
       = World (cwd w) (files w) (dirs w) (installed w) (console w)
           (emitted w ++ (asset_of w <$> take n (wasmMap pl))).
Proof.
  unfold buildEnd. generalize (wasmMap pl). intros m. revert w.
  induction m as [|[k e] m IH]; intros w.
  - exists 0%nat. simpl. rewrite app_nil_r. by destruct w.
  - cbn [for_each]. unfold mbind at 1. unfold M_bind.
    unfold mbind at 1. unfold M_bind.
    destruct (files w !! path.resolve (cwd w) (crate_path e)) as [src|] eqn:Hsrc.
    + assert (fs.readFileSync (crate_path e) w = (Ok src, w)) as ->.
      { unfold fs.readFileSync. by rewrite Hsrc. }
      change (this_emitFile (Asset (str "assets/" ++ k) src) w)
        with (Ok (), World (cwd w) (files w) (dirs w) (installed w) (console w)
                       (emitted w ++ [Asset (str "assets/" ++ k) src])).
      cbv iota beta.
      destruct (IH (World (cwd w) (files w) (dirs w) (installed w) (console w)
                      (emitted w ++ [Asset (str "assets/" ++ k) src]))) as [n Hn].
      exists (S n). etrans; [exact Hn|]. cbn [cwd files dirs installed console emitted].
      rewrite asset_of_frame. cbn [take fmap list_fmap].
      unfold asset_of at 2. cbn [fst snd]. rewrite Hsrc. by rewrite <-app_assoc.
    + assert (fs.readFileSync (crate_path e) w = (Err (ENOENT (crate_path e)), w)) as ->.
      { unfold fs.readFileSync. by rewrite Hsrc. }
      exists 0%nat. simpl. rewrite app_nil_r. by destruct w.
Qed.

(** ** The loader-script transformation, continued *)

Lemma test_true_leftmost (r : regex) (s : jsstring) :
  test r s = true →
  ∃ pre s' g rest,
    s = pre ++ s'
    ∧ (∀ i, (i < length pre)%nat → match_here r (drop i (pre ++ s')) None = None)
    ∧ match_here r s' None = Some (g, rest).
Proof.
  induction s as [|c s IH]; simpl.
  - destruct (match_here r [] None) as [[g rest]|] eqn:Hm; [|done].
    intros _. exists [], [], g, rest. split; [done|]. split; [|done].
    intros i Hi. simpl in Hi. lia.
  - destruct (match_here r (c :: s) None) as [[g rest]|] eqn:Hm.
    + intros _. exists [], (c :: s), g, rest. split; [done|]. split; [|done].
      intros i Hi. simpl in Hi. lia.
    + intros (pre & s' & g & rest & -> & Hpre & Hs')%IH.
      exists (c :: pre), s', g, rest. split; [done|]. split; [|done].
      intros [|i] Hi; [done|]. apply Hpre. simpl in Hi. lia.
Qed.

(** X13: The transformation changes the text exactly when the detection pattern
    occurs in it: without a match the loader script is written back as it
    was read, and a match never rewrites to itself. *)
Theorem transform_changes_iff_pattern (b a code : jsstring) :
  transform b a code = code ↔ test url_regex code = false.
Proof.
  split.
  - intros Heq. destruct (test url_regex code) eqn:Ht; [|done].
    apply test_true_leftmost in Ht as (pre & s & g & rest & -> & Hpre & Hm).
    destruct (match_here_url_regex _ _ _ Hm) as (file & mid & -> & Hs & _).
    unfold transform in Heq. rewrite replace_skip in Heq by done.
    apply app_inv_head in Heq.
    rewrite (replace_match _ _ _ _ _ Hm) in Heq.
    + rewrite Hs in Heq. unfold rewrite_url in Heq.
      apply (f_equal (λ l, l !! 8%nat)) in Heq. discriminate Heq.
    + rewrite Hs, !length_app. simpl. lia.
  - intros Ht. apply replace_nomatch. by apply test_false.
Qed.

Lemma strip_prefix_line (l0 l rest : jsstring) (c : char) :
  is_line_terminator c = true →
  Forall (λ x, is_line_terminator x = false) l0 →
  strip_prefix l0 (l ++ c :: rest) = (λ x, x ++ c :: rest) <$> strip_prefix l0 l.
Proof.
  intros Hc Hl0. revert l. induction Hl0 as [|a l0 Ha Hl0 IH]; intros l; [done|].
  destruct l as [|x l]; simpl.
  - destruct (N.eqb_spec a c) as [->|]; [congruence|done].
  - destruct (a =? x)%N; [apply IH|done].
Qed.

Lemma dot_plus_line {A B} (F : A → B) (l rest : jsstring) (c : char)
    (k : jsstring → jsstring → option B) (k' : jsstring → jsstring → option A) :
  is_line_terminator c = true →
  (∀ g r, l = g ++ r → k g (r ++ c :: rest) = F <$> k' g r) →
  dot_plus (l ++ c :: rest) k = F <$> dot_plus l k'.
Proof.
  intros Hc. revert k k'. induction l as [|x l IH]; intros k k' Hk; simpl.
  - by rewrite Hc.
  - destruct (is_line_terminator x); [done|].
    rewrite (IH (λ g r, k (x :: g) r) (λ g r, k' (x :: g) r)).
    + destruct (dot_plus l _); [done|]. simpl. by apply (Hk [x] l).
    + intros g r ->. by apply (Hk (x :: g) r).
Qed.

(** A match never goes past the end of the line. *)
Lemma match_here_line (r : regex) (l rest : jsstring) (c : char) (g1 : option jsstring) :
  is_line_terminator c = true →
  Forall (λ a, match a with
               | Lit l0 => Forall (λ x, is_line_terminator x = false) l0
               | _ => True
               end) r →
  match_here r (l ++ c :: rest) g1
  = (λ gx : option jsstring * jsstring, (gx.1, gx.2 ++ c :: rest)) <$> match_here r l g1.
Proof.
  intros Hc Hr. revert l g1. induction Hr as [|a r Ha Hr IH]; intros l g1; [done|].
  destruct a as [l0| |]; cbn [match_here].
  - rewrite strip_prefix_line by done. destruct (strip_prefix l0 l); [apply IH|done].
  - apply dot_plus_line; [done|]. intros g r0 _. apply IH.
  - apply dot_plus_line; [done|]. intros g r0 _. apply IH.
Qed.

Lemma url_regex_line_bounded :
  Forall (λ a, match a with
               | Lit l0 => Forall (λ x, is_line_terminator x = false) l0
               | _ => True
               end) url_regex.
Proof.
  unfold url_regex. repeat constructor.
Qed.

(** X14: The transformation works line by line: the text on either side of a
    line terminator is transformed on its own and the terminator is kept. *)
Theorem transform_line_by_line (b a l rest : jsstring) (c : char) :
  is_line_terminator c = true →
  transform b a (l ++ c :: rest) = transform b a l ++ c :: transform b a rest.
Proof.
  intros Hc. unfold transform.
  remember (length l) as n eqn:Hn. revert l Hn.
  induction (lt_wf n) as [n _ IH]. intros l ->.
  pose proof (match_here_line url_regex l rest c None Hc url_regex_line_bounded) as Hline.
  destruct l as [|x l].
  - cbn [app] in *. rewrite replace_cons_nomatch by (by rewrite Hline).
    by rewrite replace_nil_nomatch.
  - destruct (match_here url_regex (x :: l) None) as [[g r]|] eqn:Hm;
      cbn [fmap option_fmap option_map fst snd] in Hline.
    + destruct (match_here_url_regex _ _ _ Hm) as (file & mid & _ & Hs & _).
      assert (length r < length (x :: l))%nat as Hlt.
      { rewrite Hs, !length_app. simpl. lia. }
      rewrite (replace_match _ _ _ _ _ Hline), (replace_match _ _ _ _ _ Hm) by
        (rewrite ?length_app; simpl in *; lia).
      rewrite <-app_assoc. f_equal. by apply (IH (length r)).
    + simpl. rewrite replace_cons_nomatch by done.
      rewrite (replace_cons_nomatch _ _ x l) by done. simpl. f_equal.
      apply (IH (length l)); [simpl; lia|done].
Qed.

Lemma transform_line_by_line_witness :
  is_line_terminator 10%N = true
  ∧ transform (str "/") (str "assets")
      (str "input = new URL('a_bg.wasm', import.meta.url);" ++ 10%N :: str "return input;")
    = transform (str "/") (str "assets")
        (str "input = new URL('a_bg.wasm', import.meta.url);")
      ++ 10%N :: transform (str "/") (str "assets") (str "return input;").
Proof.
  split; [reflexivity|].
  exact (transform_line_by_line (str "/") (str "assets")
           (str "input = new URL('a_bg.wasm', import.meta.url);") (str "return input;")
           10%N eq_refl).
Defined.

(** ** [buildStart], continued *)








(** X16: For an installed package [buildStart] copies nothing: with the package
    directory in place, the loader script beside the resolved entry point is
    read and written back transformed, and nothing else in the world
    changes. *)
Theorem prepareBuild_module_in_place (b a c entry code : jsstring) (w : world) :
  installed w !! c = Some entry →
  fs.existsSync (path.dirname entry) w = (Ok true, w) →
  files w !! path.resolve (cwd w)
               (path.resolve (cwd w)
                  (path.join [path.dirname entry;
                              hyphens_to_underscores (path.basename c) ++ str ".js"]))
  = Some code →
  prepareBuild b a c true w
  = (Ok (),
     World (cwd w)
       (<[path.resolve (cwd w)
            (path.join [path.dirname entry;
                        hyphens_to_underscores (path.basename c) ++ str ".js"])
          := transform b a code]> (files w))
       (dirs w) (installed w) (console w) (emitted w)).
Proof.
  intros He Hex Hcode. unfold prepareBuild.
  unfold mbind at 1. unfold M_bind.
  unfold mbind at 1. unfold M_bind, require_resolve. rewrite He.
  unfold mret at 1. unfold M_ret.
  unfold mbind at 1. unfold M_bind. rewrite Hex. cbn [negb when].
  unfold mbind at 1. unfold M_bind. unfold mret at 1. unfold M_ret.
  unfold mbind at 1. unfold M_bind. unfold mret at 1. unfold M_ret.
  unfold mbind at 1. unfold M_bind.
  unfold mbind at 1. unfold M_bind, path_resolve, fs.readFileSync.
  rewrite Hcode. done.
Qed.

Lemma prepareBuild_module_in_place_witness :
  installed demo_world !! str "test-npm-crate"
  = Some (str "/proj/node_modules/test-npm-crate/test_npm_crate.js")
  ∧ fs.existsSync (path.dirname (str "/proj/node_modules/test-npm-crate/test_npm_crate.js"))
      demo_world = (Ok true, demo_world)
  ∧ files demo_world
      !! path.resolve (cwd demo_world)
           (path.resolve (cwd demo_world)
              (path.join [path.dirname (str "/proj/node_modules/test-npm-crate/test_npm_crate.js");
                          hyphens_to_underscores (path.basename (str "test-npm-crate"))
                          ++ str ".js"]))
    = Some (demo_loader (str "test_npm_crate_bg.wasm"))
  ∧ prepareBuild (str "/") (str "assets") (str "test-npm-crate") true demo_world
    = (Ok (),
       World (cwd demo_world)
         (<[path.resolve (cwd demo_world)
              (path.join [path.dirname (str "/proj/node_modules/test-npm-crate/test_npm_crate.js");
                          hyphens_to_underscores (path.basename (str "test-npm-crate"))
                          ++ str ".js"])
            := transform (str "/") (str "assets") (demo_loader (str "test_npm_crate_bg.wasm"))]>
            (files demo_world))
         (dirs demo_world) (installed demo_world) (console demo_world) (emitted demo_world)).
Proof.
  assert (installed demo_world !! str "test-npm-crate"
          = Some (str "/proj/node_modules/test-npm-crate/test_npm_crate.js")) as H1
    by (vm_compute; reflexivity).
  assert (fs.existsSync
            (path.dirname (str "/proj/node_modules/test-npm-crate/test_npm_crate.js"))
            demo_world = (Ok true, demo_world)) as H2 by (vm_compute; reflexivity).
  assert (files demo_world
            !! path.resolve (cwd demo_world)
                 (path.resolve (cwd demo_world)
                    (path.join [path.dirname
                                  (str "/proj/node_modules/test-npm-crate/test_npm_crate.js");
                                hyphens_to_underscores (path.basename (str "test-npm-crate"))
                                ++ str ".js"]))
          = Some (demo_loader (str "test_npm_crate_bg.wasm"))) as H3
    by (vm_compute; reflexivity).
  split; [exact H1|]. split; [exact H2|]. split; [exact H3|].
  exact (prepareBuild_module_in_place (str "/") (str "assets") _ _ _ demo_world H1 H2 H3).
Defined.

(** X17: An installed package whose loader script cannot be read ends
    [buildStart] with the read error; nothing has been written. *)
Theorem prepareBuild_module_loader_unreadable (b a c entry : jsstring) (w : world) :
  installed w !! c = Some entry →
  fs.existsSync (path.dirname entry) w = (Ok true, w) →
  files w !! path.resolve (cwd w)
               (path.resolve (cwd w)
                  (path.join [path.dirname entry;
                              hyphens_to_underscores (path.basename c) ++ str ".js"]))
  = None →
  prepareBuild b a c true w
  = (Err (ENOENT (path.resolve (cwd w)
                    (path.join [path.dirname entry;
                                hyphens_to_underscores (path.basename c) ++ str ".js"]))),
     w).
Proof.
  intros He Hex Hcode. unfold prepareBuild.
  unfold mbind at 1. unfold M_bind.
  unfold mbind at 1. unfold M_bind, require_resolve. rewrite He.
  unfold mret at 1. unfold M_ret.
  unfold mbind at 1. unfold M_bind. rewrite Hex. cbn [negb when].
  unfold mbind at 1. unfold M_bind. unfold mret at 1. unfold M_ret.
  unfold mbind at 1. unfold M_bind. unfold mret at 1. unfold M_ret.
  unfold mbind at 1. unfold M_bind.
  unfold mbind at 1. unfold M_bind, path_resolve, fs.readFileSync.
  rewrite Hcode. done.
Qed.

Lemma prepareBuild_module_loader_unreadable_witness :
  installed bare_world !! str "bare" = Some (str "/proj/node_modules/bare/index.js")
  ∧ fs.existsSync (path.dirname (str "/proj/node_modules/bare/index.js")) bare_world
    = (Ok true, bare_world)
  ∧ files bare_world
      !! path.resolve (cwd bare_world)
           (path.resolve (cwd bare_world)
              (path.join [path.dirname (str "/proj/node_modules/bare/index.js");
                          hyphens_to_underscores (path.basename (str "bare")) ++ str ".js"]))
    = None
  ∧ prepareBuild (str "/") (str "assets") (str "bare") true bare_world
    = (Err (ENOENT (path.resolve (cwd bare_world)
                      (path.join [path.dirname (str "/proj/node_modules/bare/index.js");
                                  hyphens_to_underscores (path.basename (str "bare"))
                                  ++ str ".js"]))),
       bare_world).
Proof.
  assert (installed bare_world !! str "bare" = Some (str "/proj/node_modules/bare/index.js"))
    as H1 by (vm_compute; reflexivity).
  assert (fs.existsSync (path.dirname (str "/proj/node_modules/bare/index.js")) bare_world
          = (Ok true, bare_world)) as H2 by (vm_compute; reflexivity).
  assert (files bare_world
            !! path.resolve (cwd bare_world)
                 (path.resolve (cwd bare_world)
                    (path.join [path.dirname (str "/proj/node_modules/bare/index.js");
                                hyphens_to_underscores (path.basename (str "bare"))
                                ++ str ".js"]))
          = None) as H3 by (vm_compute; reflexivity).
  split; [exact H1|]. split; [exact H2|]. split; [exact H3|].
  exact (prepareBuild_module_loader_unreadable (str "/") (str "assets") (str "bare")
           (str "/proj/node_modules/bare/index.js") bare_world H1 H2 H3).
Defined.



(** ** [path.normalize], [path.join] and [path.resolve] on plain paths *)

Section normalize_facts.
Import path.

Lemma len_app (a b : jsstring) : len (a ++ b) = len a + len b.
Proof. unfold len. rewrite length_app. lia. Qed.

Lemma len_cons (c : char) (a : jsstring) : len (c :: a) = 1 + len a.
Proof. unfold len. simpl length. lia. Qed.

Lemma len_nonneg (a : jsstring) : 0 ≤ len a.
Proof. unfold len. lia. Qed.

Lemma len_pos (a : jsstring) : a ≠ [] → 0 < len a.
Proof. destruct a; [done|]. intros _. rewrite len_cons. pose proof (len_nonneg a). lia. Qed.

(** Inside a segment only the counter of dots moves. *)
Lemma normalize_loop_scan (p : jsstring) (allow : bool) (u rest : jsstring) (i : Z)
    (code : char) (st : nstate) :
  CHAR_FORWARD_SLASH ∉ u →
  normalize_loop p allow (u ++ rest) i code st
  = normalize_loop p allow rest (i + len u) (default code (last u))
      (NState (res st) (lastSegmentLength st) (lastSlash st) (dots_after (dots st) u)).
Proof.
  revert i code st. induction u as [|c u IH]; intros i code st Hu.
  - simpl. rewrite Z.add_0_r. by destruct st.
  - apply not_elem_of_cons in Hu as [Hc Hu]. cbn [app normalize_loop].
    rewrite IH by done. rewrite len_cons.
    replace (i + 1 + len u) with (i + (1 + len u)) by lia.
    assert (isPosixPathSeparator c = false) as Hsep.
    { unfold isPosixPathSeparator. destruct (N.eqb_spec c CHAR_FORWARD_SLASH); congruence. }
    unfold normalize_step. rewrite Hsep. cbn [dots_after].
    assert (default code (last (c :: u)) = default c (last u)) as ->.
    { rewrite (last_cons c u). by destruct (last u). }
    by destruct ((c =? CHAR_DOT)%N && negb (dots st =? -1)).
Qed.

Lemma dots_after_gave_up (u : jsstring) : dots_after (-1) u = -1.
Proof. induction u as [|c u IH]; [done|]. simpl. by rewrite andb_false_r. Qed.

Lemma dots_after_counts (d : Z) (u : jsstring) :
  0 ≤ d →
  dots_after d u = -1
  ∨ (dots_after d u = d + len u ∧ u = replicate (length u) CHAR_DOT).
Proof.
  revert d. induction u as [|c u IH]; intros d Hd.
  - right. unfold len. simpl. split; [lia|done].
  - simpl. destruct (N.eqb_spec c CHAR_DOT) as [->|Hne]; simpl.
    + destruct (Z.eqb_spec d (-1)); [lia|]. simpl.
      destruct (IH (d + 1)) as [Hgave|[Hcount Hall]]; [lia|by left|].
      right. rewrite len_cons. split; [lia|]. by rewrite <-Hall.
    + left. apply dots_after_gave_up.
Qed.

Lemma plain_segment_dots (seg : jsstring) :
  plain_segment seg → dots_after 0 seg ≠ 1 ∧ dots_after 0 seg ≠ 2.
Proof.
  intros (Hne & _ & Hdot & Hdotdot).
  destruct (dots_after_counts 0 seg) as [->|[Hcount Hall]]; [lia|done|].
  rewrite Hcount. unfold len.
  destruct seg as [|c1 [|c2 [|c3 seg]]]; simpl in *; [done| | |split; lia].
  - injection Hall as ->. done.
  - injection Hall as -> ->. done.
Qed.

(** At the separator that ends a plain segment the segment is appended. *)
Lemma normalize_step_segment (p : jsstring) (allow : bool) (pfx seg sfx : jsstring)
    (st : nstate) :
  p = pfx ++ seg ++ sfx → plain_segment seg →
  lastSlash st = len pfx - 1 → dots st = dots_after 0 seg →
  normalize_step p allow (len pfx + len seg) CHAR_FORWARD_SLASH st
  = NState (if len (res st) >? 0 then res st ++ str "/" ++ seg else seg)
      (len seg) (len pfx + len seg) 0.
Proof.
  intros Hp Hplain Hls Hdots. pose proof (plain_segment_dots seg Hplain) as [Hd1 Hd2].
  destruct Hplain as (Hne & _). pose proof (len_pos seg Hne) as Hpos.
  unfold normalize_step. change (isPosixPathSeparator CHAR_FORWARD_SLASH) with true.
  cbv iota. rewrite Hls, Hdots.
  destruct (Z.eqb_spec (len pfx - 1) (len pfx + len seg - 1)); [lia|].
  destruct (Z.eqb_spec (dots_after 0 seg) 1); [done|].
  destruct (Z.eqb_spec (dots_after 0 seg) 2); [done|]. cbn [orb].
  assert (slice p (len pfx - 1 + 1) (len pfx + len seg) = seg) as ->.
  { unfold slice, len. rewrite Hp.
    replace (Z.to_nat (Z.of_nat (length pfx) - 1 + 1)) with (length pfx) by lia.
    replace (Z.to_nat (Z.of_nat (length pfx) + Z.of_nat (length seg)
                       - (Z.of_nat (length pfx) - 1 + 1))) with (length seg) by lia.
    by rewrite drop_app_length, take_app_length. }
  f_equal. lia.
Qed.

(** The loop on plain segments, up to the end of the path or up to a
    trailing separator. *)
Lemma normalize_loop_segments (p : jsstring) (allow : bool) (segs : list jsstring)
    (tail pfx : jsstring) (code : char) (st : nstate) :
  Forall plain_segment segs → segs ≠ [] →
  tail = [] ∨ tail = str "/" →
  p = pfx ++ join_segments segs ++ tail →
  lastSlash st = len pfx - 1 → dots st = 0 →
  normalize_loop p allow (join_segments segs ++ tail) (len pfx) code st
  = append_segments (res st) segs.
Proof.
  intros Hsegs. revert pfx code st.
  induction Hsegs as [|seg segs Hseg Hsegs IH]; intros pfx code st Hne Htail Hp Hls Hdots;
    [done|].
  pose proof Hseg as (Hsne & Hnosep & _).
  destruct segs as [|seg2 segs].
  - cbn [join_segments append_segments] in *.
    rewrite normalize_loop_scan by done. rewrite Hdots.
    destruct Htail as [->| ->].
    + cbn [normalize_loop].
      assert (isPosixPathSeparator (default code (last seg)) = false) as ->.
      { destruct (last seg) as [c|] eqn:Hlast.
        - apply last_Some in Hlast as [l' ->]. simpl. unfold isPosixPathSeparator.
          destruct (N.eqb_spec c CHAR_FORWARD_SLASH) as [->|]; [|done].
          destruct Hnosep. apply elem_of_app. right. left.
        - by apply last_None in Hlast. }
      rewrite (normalize_step_segment p allow pfx seg []); done.
    + change (str "/") with [CHAR_FORWARD_SLASH]. cbn [normalize_loop].
      rewrite (normalize_step_segment p allow pfx seg [CHAR_FORWARD_SLASH]); done.
  - cbn [append_segments].
    change (join_segments (seg :: seg2 :: segs))
      with (seg ++ CHAR_FORWARD_SLASH :: join_segments (seg2 :: segs)) in *.
    rewrite <-app_assoc. rewrite normalize_loop_scan by done. rewrite Hdots.
    cbn [app normalize_loop].
    rewrite (normalize_step_segment p allow pfx seg
               (CHAR_FORWARD_SLASH :: join_segments (seg2 :: segs) ++ tail));
      [|by rewrite Hp, <-app_assoc|done|done|done].
    replace (len pfx + len seg + 1) with (len (pfx ++ seg ++ [CHAR_FORWARD_SLASH]))
      by (rewrite !len_app, len_cons; unfold len; simpl; lia).
    rewrite IH; [done|done|done| | |done].
    + rewrite Hp, <-!app_assoc. done.
    + cbn [lastSlash]. rewrite !len_app, len_cons. unfold len. simpl. lia.
Qed.

End normalize_facts.

Section plain_paths.
Import path.

Lemma append_segments_nonempty (r : jsstring) (segs : list jsstring) :
  r ≠ [] →
  append_segments r segs
  = match segs with
    | [] => r
    | _ => r ++ str "/" ++ join_segments segs
    end.
Proof.
  revert r. induction segs as [|s segs IH]; intros r Hr; [done|].
  cbn [append_segments]. pose proof (len_pos r Hr) as Hpos.
  destruct (Z.gtb_spec (len r) 0) as [_|]; [|lia].
  rewrite IH by (by destruct r). destruct segs as [|s2 segs]; [done|].
  by rewrite <-!app_assoc.
Qed.

Lemma append_segments_nil (segs : list jsstring) :
  Forall plain_segment segs → append_segments [] segs = join_segments segs.
Proof.
  destruct 1 as [|s rest (Hs & _) _]; [done|]. cbn [append_segments].
  change (len [] >? 0) with false. cbv iota.
  rewrite append_segments_nonempty by done. by destruct rest.
Qed.

Lemma join_segments_app (a b : list jsstring) :
  a ≠ [] → b ≠ [] →
  join_segments (a ++ b) = join_segments a ++ str "/" ++ join_segments b.
Proof.
  intros Ha Hb. induction a as [|s a IH]; [done|].
  destruct a as [|s2 a].
  - destruct b; [done|]. done.
  - change (join_segments ((s :: s2 :: a) ++ b))
      with (s ++ str "/" ++ join_segments ((s2 :: a) ++ b)).
    rewrite IH by done. cbn [join_segments]. by rewrite <-!app_assoc.
Qed.

Lemma join_segments_nonempty (segs : list jsstring) :
  Forall plain_segment segs → segs ≠ [] → join_segments segs ≠ [].
Proof.
  destruct 1 as [|s rest (Hs & _) _]; intros Hne; [done|].
  destruct rest; cbn [join_segments]; [done|]. by intros [? _]%app_eq_nil.
Qed.

Lemma join_segments_head (segs : list jsstring) :
  Forall plain_segment segs → segs ≠ [] →
  (charCodeAt (join_segments segs) 0 =? CHAR_FORWARD_SLASH)%N = false.
Proof.
  destruct 1 as [|s rest (Hs & Hsep & _) _]; intros Hne; [done|].
  destruct s as [|c s]; [done|]. apply not_elem_of_cons in Hsep as [Hc _].
  destruct rest; cbn [join_segments app charCodeAt nth];
    destruct (N.eqb_spec c CHAR_FORWARD_SLASH); congruence.
Qed.

Lemma join_segments_last (segs : list jsstring) :
  Forall plain_segment segs → segs ≠ [] →
  ∃ l c, join_segments segs = l ++ [c] ∧ c ≠ CHAR_FORWARD_SLASH.
Proof.
  intros Hsegs Hne. induction Hsegs as [|s segs (Hs & Hsep & _) Hsegs IH]; [done|].
  destruct segs as [|s2 segs].
  - cbn [join_segments]. destruct (last s) as [c|] eqn:Hlast.
    + apply last_Some in Hlast as [l ->]. exists l, c. split; [done|].
      intros ->. apply Hsep, elem_of_app. right. left.
    + by apply last_None in Hlast.
  - destruct IH as (l & c & Hl & Hc); [done|].
    exists (s ++ str "/" ++ l), c. split; [|done].
    change (join_segments (s :: s2 :: segs))
      with (s ++ str "/" ++ join_segments (s2 :: segs)).
    by rewrite Hl, <-!app_assoc.
Qed.

Lemma charCodeAt_last (l : jsstring) (c : char) :
  charCodeAt (l ++ [c]) (length (l ++ [c]) - 1) = c.
Proof.
  unfold charCodeAt. rewrite length_app. simpl.
  replace (length l + 1 - 1)%nat with (length l) by lia.
  by rewrite nth_middle.
Qed.

(** [normalizeString] keeps a path of plain segments, with or without a
    separator before and after. *)
Lemma normalizeString_plain (segs : list jsstring) (lead tail : jsstring) (allow : bool) :
  Forall plain_segment segs → segs ≠ [] →
  lead = [] ∨ lead = str "/" ∨ lead = str "./" →
  tail = [] ∨ tail = str "/" →
  normalizeString (lead ++ join_segments segs ++ tail) allow = join_segments segs.
Proof.
  intros Hsegs Hne Hlead Htail. unfold normalizeString.
  trans (append_segments [] segs); [|by apply append_segments_nil].
  destruct Hlead as [->|[->| ->]].
  - apply (normalize_loop_segments _ allow segs tail [] 0%N (NState [] 0 (-1) 0)); done.
  - change (str "/") with [CHAR_FORWARD_SLASH]. cbn [app normalize_loop].
    apply (normalize_loop_segments _ allow segs tail [CHAR_FORWARD_SLASH]); done.
  - change (str "./") with [CHAR_DOT; CHAR_FORWARD_SLASH]. cbn [app normalize_loop].
    apply (normalize_loop_segments _ allow segs tail [CHAR_DOT; CHAR_FORWARD_SLASH]); done.
Qed.

Lemma normalize_plain (segs : list jsstring) :
  Forall plain_segment segs → segs ≠ [] →
  normalize (join_segments segs) = join_segments segs.
Proof.
  intros Hsegs Hne. unfold normalize.
  pose proof (join_segments_nonempty segs Hsegs Hne) as Hnonempty.
  destruct (join_segments_last segs Hsegs Hne) as (l & c & Hl & Hc).
  rewrite join_segments_head by done.
  destruct (Nat.eqb_spec (length (join_segments segs)) 0) as [Hlen|_].
  { by destruct (join_segments segs). }
  assert ((charCodeAt (join_segments segs) (length (join_segments segs) - 1)
           =? CHAR_FORWARD_SLASH)%N = false) as ->.
  { rewrite Hl, charCodeAt_last. by apply N.eqb_neq. }
  cbn [negb].
  pose proof (normalizeString_plain segs [] [] true Hsegs Hne
                (or_introl eq_refl) (or_introl eq_refl)) as Hn.
  cbn [app] in Hn. rewrite app_nil_r in Hn. rewrite Hn.
  destruct (Nat.eqb_spec (length (join_segments segs)) 0) as [Hlen|_]; [|done].
  by destruct (join_segments segs).
Qed.

Lemma normalize_dot_slash_plain (segs : list jsstring) :
  Forall plain_segment segs → segs ≠ [] →
  normalize (str "./" ++ join_segments segs) = join_segments segs.
Proof.
  intros Hsegs Hne. unfold normalize.
  pose proof (join_segments_nonempty segs Hsegs Hne) as Hnonempty.
  destruct (join_segments_last segs Hsegs Hne) as (l & c & Hl & Hc).
  change (length (str "./" ++ join_segments segs) =? 0)%nat with false.
  change (charCodeAt (str "./" ++ join_segments segs) 0 =? CHAR_FORWARD_SLASH)%N with false.
  cbv iota.
  assert ((charCodeAt (str "./" ++ join_segments segs)
             (length (str "./" ++ join_segments segs) - 1)
           =? CHAR_FORWARD_SLASH)%N = false) as ->.
  { rewrite Hl, app_assoc, charCodeAt_last. by apply N.eqb_neq. }
  cbn [negb].
  pose proof (normalizeString_plain segs (str "./") [] true Hsegs Hne
                (or_intror (or_intror eq_refl)) (or_introl eq_refl)) as Hn.
  rewrite app_nil_r in Hn. rewrite Hn.
  destruct (Nat.eqb_spec (length (join_segments segs)) 0) as [Hlen|_]; [|done].
  by destruct (join_segments segs).
Qed.

Lemma join_loop_plain (segs : list jsstring) (j : jsstring) :
  Forall plain_segment segs → segs ≠ [] →
  join_loop segs (Some j) = Some (j ++ str "/" ++ join_segments segs).
Proof.
  intros Hsegs. revert j. induction Hsegs as [|s segs (Hs & _) Hsegs IH]; intros j Hne;
    [done|].
  cbn [join_loop]. destruct s as [|c s]; [done|]. cbn [length Nat.ltb Nat.leb].
  destruct segs as [|s2 segs]; [done|].
  rewrite IH by done. by rewrite <-!app_assoc.
Qed.

(** [path.join] of plain segments puts separators between them; a leading
    [./] on the first argument is dropped. *)
Lemma join_plain (segs : list jsstring) :
  Forall plain_segment segs → segs ≠ [] → join segs = join_segments segs.
Proof.
  intros Hsegs Hne. unfold join.
  destruct Hsegs as [|s segs Hs Hsegs]; [done|].
  pose proof Hs as (Hsne & _).
  cbn [join_loop]. destruct s as [|c s]; [done|]. cbn [length Nat.ltb Nat.leb].
  destruct segs as [|s2 segs].
  - cbn [join_loop]. by apply (normalize_plain [c :: s]); [constructor|].
  - rewrite join_loop_plain by done.
    by apply (normalize_plain ((c :: s) :: s2 :: segs)); [constructor|].
Qed.

Lemma join_dot_slash_plain (s : jsstring) (segs : list jsstring) :
  Forall plain_segment (s :: segs) →
  join ((str "./" ++ s) :: segs) = join_segments (s :: segs).
Proof.
  intros Hsegs. unfold join. change (str "./" ++ s) with (46%N :: 47%N :: s).
  cbn [join_loop length Nat.ltb Nat.leb].
  destruct segs as [|s2 segs].
  - cbn [join_loop]. by apply (normalize_dot_slash_plain [s]).
  - apply Forall_cons in Hsegs as [Hs Hsegs]. rewrite join_loop_plain by done.
    apply (normalize_dot_slash_plain (s :: s2 :: segs)); [by constructor|done].
Qed.

(** [path.resolve] of a plain relative path in a plain working directory
    appends it; a plain absolute path resolves to itself. *)
Lemma resolve_plain (csegs psegs : list jsstring) :
  Forall plain_segment csegs → csegs ≠ [] →
  Forall plain_segment psegs → psegs ≠ [] →
  resolve (str "/" ++ join_segments csegs) (join_segments psegs)
  = str "/" ++ join_segments csegs ++ str "/" ++ join_segments psegs.
Proof.
  intros Hc Hcne Hp Hpne. unfold resolve.
  pose proof (join_segments_nonempty psegs Hp Hpne) as Hnonempty.
  destruct (join_segments psegs) as [|c0 p0] eqn:Hjoin; [done|].
  cbn [length Nat.ltb Nat.leb]. rewrite <-Hjoin.
  rewrite join_segments_head by done.
  change (0 <? length (str "/" ++ join_segments csegs))%nat with true.
  change (charCodeAt (str "/" ++ join_segments csegs) 0 =? CHAR_FORWARD_SLASH)%N with true.
  cbv iota. cbn [negb].
  replace ((str "/" ++ join_segments csegs) ++ str "/" ++ join_segments psegs ++ str "/")
    with (str "/" ++ join_segments (csegs ++ psegs) ++ str "/")
    by (by rewrite join_segments_app, <-!app_assoc).
  change (length (str "/" ++ join_segments csegs))
    with (S (length (join_segments csegs))). cbv iota. cbn [negb].
  rewrite (normalizeString_plain (csegs ++ psegs) (str "/") (str "/") false).
  - by rewrite join_segments_app.
  - by apply Forall_app.
  - by destruct csegs.
  - auto.
  - auto.
Qed.

Lemma resolve_plain_absolute (cwd0 : jsstring) (psegs : list jsstring) :
  Forall plain_segment psegs → psegs ≠ [] →
  resolve cwd0 (str "/" ++ join_segments psegs) = str "/" ++ join_segments psegs.
Proof.
  intros Hp Hpne. unfold resolve.
  change (0 <? length (str "/" ++ join_segments psegs))%nat with true.
  change (charCodeAt (str "/" ++ join_segments psegs) 0 =? CHAR_FORWARD_SLASH)%N with true.
  cbv iota. cbn [negb]. rewrite <-app_assoc.
  by rewrite (normalizeString_plain psegs (str "/") (str "/") false) by auto.
Qed.

End plain_paths.

(** ** Staging a local crate *)




Lemma plain_node_modules : plain_segment (str "node_modules").
Proof.
  split; [done|]. split; [|done].
  apply (bool_decide_unpack _). vm_compute. exact I.
Qed.



Lemma plain_proj : plain_segment (str "proj").
Proof.
  split; [done|]. split; [|done].
  apply (bool_decide_unpack _). vm_compute. exact I.
Qed.



(** X20: The paths the plugin builds from plain names are what they look like:
    [path.join] of plain segments puts one separator between them, drops a
    leading [./], and [path.resolve] in a plain working directory puts the
    working directory in front. *)
Theorem path_join_resolve_plain (csegs segs : list jsstring) (s : jsstring) :
  Forall plain_segment csegs → csegs ≠ [] →
  Forall plain_segment (s :: segs) →
  path.join (s :: segs) = join_segments (s :: segs)
  ∧ path.join ((str "./" ++ s) :: segs) = join_segments (s :: segs)
  ∧ path.resolve (str "/" ++ join_segments csegs) (path.join (s :: segs))
    = str "/" ++ join_segments csegs ++ str "/" ++ join_segments (s :: segs)
  ∧ path.resolve (str "/" ++ join_segments csegs)
      (path.resolve (str "/" ++ join_segments csegs) (path.join (s :: segs)))
    = path.resolve (str "/" ++ join_segments csegs) (path.join (s :: segs)).
Proof.
  intros Hc Hcne Hsegs.
  rewrite join_plain by done. rewrite join_dot_slash_plain by done.
  rewrite resolve_plain by done. split; [done|]. split; [done|]. split; [done|].
  replace (str "/" ++ join_segments csegs ++ str "/" ++ join_segments (s :: segs))
    with (str "/" ++ join_segments (csegs ++ s :: segs))
    by (by rewrite join_segments_app).
  apply resolve_plain_absolute; [by apply Forall_app|by destruct csegs].
Qed.

Lemma path_join_resolve_plain_witness :
  Forall plain_segment [str "proj"]
  ∧ [str "proj"] ≠ []
  ∧ Forall plain_segment [str "node_modules"; str "proj"]
  ∧ path.join [str "node_modules"; str "proj"]
    = join_segments [str "node_modules"; str "proj"]
  ∧ path.join [str "./" ++ str "node_modules"; str "proj"]
    = join_segments [str "node_modules"; str "proj"]
  ∧ path.resolve (str "/" ++ join_segments [str "proj"])
      (path.join [str "node_modules"; str "proj"])
    = str "/" ++ join_segments [str "proj"] ++ str "/"
      ++ join_segments [str "node_modules"; str "proj"]
  ∧ path.resolve (str "/" ++ join_segments [str "proj"])
      (path.resolve (str "/" ++ join_segments [str "proj"])
         (path.join [str "node_modules"; str "proj"]))
    = path.resolve (str "/" ++ join_segments [str "proj"])
        (path.join [str "node_modules"; str "proj"]).
Proof.
  assert (Forall plain_segment [str "proj"]) as H1.
  { constructor; [apply plain_proj|constructor]. }
  assert ([str "proj"] ≠ []) as H2 by done.
  assert (Forall plain_segment [str "node_modules"; str "proj"]) as H3.
  { constructor; [apply plain_node_modules|]. constructor; [apply plain_proj|constructor]. }
  split; [exact H1|]. split; [exact H2|]. split; [exact H3|].
  exact (path_join_resolve_plain [str "proj"] [str "proj"] (str "node_modules") H1 H2 H3).
Defined.

Lemma transform_url_line_witness :
  (∀ i, (i < length (str "    "))%nat →
        match_here url_regex
          (drop i (str "    " ++ str "input = new URL('" ++ str "it's_bg.wasm" ++ str "'"
                   ++ str ", import.meta.url)" ++ str ";" ++ str " // 'default' path"))
          None = None)
  ∧ str "it's_bg.wasm" ≠ []
  ∧ str ", import.meta.url)" ≠ []
  ∧ Forall (λ c, is_line_terminator c = false)
      (str "it's_bg.wasm" ++ str ", import.meta.url)")
  ∧ (CHAR_SINGLE_QUOTE ∉ str ", import.meta.url)")
  ∧ (CHAR_SEMICOLON ∉ first_line (str " // 'default' path"))
  ∧ transform (str "/") (str "assets")
      (str "    " ++ str "input = new URL('" ++ str "it's_bg.wasm" ++ str "'"
       ++ str ", import.meta.url)" ++ str ";" ++ str " // 'default' path")
    = str "    " ++ str "input = " ++ [CHAR_DOUBLE_QUOTE]
        ++ path.join [str "/"; str "assets"; str "it's_bg.wasm"]
        ++ [CHAR_DOUBLE_QUOTE]
        ++ transform (str "/") (str "assets") (str " // 'default' path").
Proof.
  assert (∀ i, (i < length (str "    "))%nat →
            match_here url_regex
              (drop i (str "    " ++ str "input = new URL('" ++ str "it's_bg.wasm" ++ str "'"
                       ++ str ", import.meta.url)" ++ str ";" ++ str " // 'default' path"))
              None = None) as H1.
  { intros i Hi. do 4 (destruct i as [|i]; [vm_compute; reflexivity|]).
    vm_compute in Hi. lia. }
  assert (str "it's_bg.wasm" ≠ []) as H2 by done.
  assert (str ", import.meta.url)" ≠ []) as H3 by done.
  assert (Forall (λ c, is_line_terminator c = false)
            (str "it's_bg.wasm" ++ str ", import.meta.url)")) as H4.
  { apply Forall_forall. intros c Hc.
    revert c Hc. apply Forall_forall. apply (bool_decide_unpack _). vm_compute. exact I. }
  assert (CHAR_SINGLE_QUOTE ∉ str ", import.meta.url)") as H5.
  { apply (bool_decide_unpack _). vm_compute. exact I. }
  assert (CHAR_SEMICOLON ∉ first_line (str " // 'default' path")) as H6.
  { apply (bool_decide_unpack _). vm_compute. exact I. }
  split; [exact H1|]. split; [exact H2|]. split; [exact H3|]. split; [exact H4|].
  split; [exact H5|]. split; [exact H6|].
  exact (transform_url_line (str "/") (str "assets") (str "    ") (str "it's_bg.wasm")
           (str ", import.meta.url)") (str " // 'default' path") H1 H2 H3 H4 H5 H6).
Defined.
